(** * oxfd.js: the outbound request pipeline of the Oxford Response client

    A shallow embedding of [src/index.js]: the error classes, the token
    bucket that gates request starts, the client constructor, the request
    executor [_request], and the flat and grouped resource methods.

    Conventions of the embedding.
    - A JavaScript number is a [number]: a rational, an infinity or NaN.
      Arithmetic is exact: IEEE rounding and the sign of zero are not
      modelled, so that a count of tokens can differ from the double the
      program holds by the rounding of its refills.
    - [Date.now()] is an oracle [Date_now : nat -> Z]; the n-th call of a
      run reads [Date_now n].  Nothing is assumed about it unless a
      theorem says so.
    - The token bucket lives in an event loop ([Loop]) whose operations
      are the calls of [acquire()] and the firings of the timers that
      [tick] arms, in any order.
    - The built-ins [JSON.parse], [JSON.stringify], the string-to-number
      conversion behind [Number(s)] and the number-to-string conversion
      are the fields of the class [Runtime]; the theorems hold for every
      runtime.  [Node] is an executable instance for concrete runs.
    - An [async] body is a tree of suspension points ([Prog]): the wait
      at the gate, the [fetch] under its abort timer, the read of the
      body, the sleep before a retry.  [run] feeds it the behaviour of
      the transport, one entry per [fetch], every wait at the gate being
      served; [run_gated] runs the bucket of the gate as well.
    - The host is Node: a timer whose delay is not between 1 and
      2^31 - 1 fires after 1 ms.

    The file has two parts: the definitions, then the theorems. *)

From Stdlib Require Import List String Ascii Bool ZArith QArith Lia Lqa.
From Stdlib Require Import DecimalString.
From Equations Require Import Equations.
From Equations.Prop Require Import Logic.
Import ListNotations.

Set Warnings "-register-all".
Local Open Scope string_scope.
Local Open Scope list_scope.
Local Open Scope Z_scope.

(** ** JavaScript numbers *)

Module JS.

Inductive number : Type :=
| Num (q : Q)
| Inf (negative : bool)
| NaN.

Definition Qzero (q : Q) : bool := Qeq_bool q 0.
Definition Qneg (q : Q) : bool := negb (Qle_bool 0 q).

Definition neg (a : number) : number :=
  match a with
  | Num x => Num (- x)
  | Inf s => Inf (negb s)
  | NaN => NaN
  end.

Definition add (a b : number) : number :=
  match a, b with
  | NaN, _ | _, NaN => NaN
  | Num x, Num y => Num (x + y)
  | Inf s, Num _ => Inf s
  | Num _, Inf s => Inf s
  | Inf s, Inf t => if Bool.eqb s t then Inf s else NaN
  end.

Definition sub (a b : number) : number := add a (neg b).

Definition mul (a b : number) : number :=
  match a, b with
  | NaN, _ | _, NaN => NaN
  | Num x, Num y => Num (x * y)
  | Inf s, Num y => if Qzero y then NaN else Inf (xorb s (Qneg y))
  | Num x, Inf s => if Qzero x then NaN else Inf (xorb s (Qneg x))
  | Inf s, Inf t => Inf (xorb s t)
  end.

Definition div (a b : number) : number :=
  match a, b with
  | NaN, _ | _, NaN => NaN
  | Num x, Num y =>
      if Qzero y then (if Qzero x then NaN else Inf (Qneg x))
      else Num (x / y)
  | Num _, Inf _ => Num 0
  | Inf s, Num y => Inf (xorb s (Qneg y))
  | Inf _, Inf _ => NaN
  end.

(** [a >= b]: false as soon as one side is NaN. *)
Definition ge (a b : number) : bool :=
  match a, b with
  | NaN, _ | _, NaN => false
  | Num x, Num y => Qle_bool y x
  | Inf s, Inf t => orb (negb s) t
  | Inf s, Num _ => negb s
  | Num _, Inf t => t
  end.

(** [Math.min(a, b)] *)
Definition min (a b : number) : number :=
  match a, b with
  | NaN, _ | _, NaN => NaN
  | _, _ => if ge b a then a else b
  end.

Definition ofZ (z : Z) : number := Num (inject_Z z).

(** ** JavaScript values *)

Inductive value : Type :=
| VUndefined
| VNull
| VBool (b : bool)
| VNum (n : number)
| VStr (s : string)
| VArr (items : list value)
| VObj (props : list (string * value)).

Definition str_nonempty (s : string) : bool :=
  match s with EmptyString => false | String _ _ => true end.

(** ToBoolean *)
Definition truthy (v : value) : bool :=
  match v with
  | VUndefined | VNull => false
  | VBool b => b
  | VNum (Num q) => negb (Qzero q)
  | VNum (Inf _) => true
  | VNum NaN => false
  | VStr s => str_nonempty s
  | VArr _ | VObj _ => true
  end.

(** [a || b] *)
Definition or (a b : value) : value := if truthy a then a else b.

Fixpoint assoc (k : string) (ps : list (string * value)) : option value :=
  match ps with
  | [] => None
  | (k', v) :: ps' => if String.eqb k k' then Some v else assoc k ps'
  end.

(** [v?.k] for the keys the client reads ([message], [error]): own
    properties of an object, [undefined] on everything else. *)
Definition get (v : value) (k : string) : value :=
  match v with
  | VObj ps => match assoc k ps with Some x => x | None => VUndefined end
  | _ => VUndefined
  end.

(** [typeof v === "string"] *)
Definition is_string (v : value) : bool :=
  match v with VStr _ => true | _ => false end.

(** The built-ins of the host that the client calls. *)
Class Runtime : Type := {
  JSON_parse : string -> option value;      (* None: SyntaxError *)
  JSON_stringify : value -> string;
  StringToNumber : string -> number;
  NumberToString : number -> string
}.

Section Conversions.
Context {rt : Runtime}.

Fixpoint join (sep : string) (l : list string) : string :=
  match l with
  | [] => EmptyString
  | [s] => s
  | s :: l' => (s ++ sep ++ join sep l')%string
  end.

(** ToString, as used by template literals and by the Error constructor. *)
Fixpoint ToString (v : value) : string :=
  match v with
  | VUndefined => "undefined"
  | VNull => "null"
  | VBool true => "true"
  | VBool false => "false"
  | VNum n => NumberToString n
  | VStr s => s
  | VArr items =>
      join "," (map (fun x => match x with
                              | VUndefined | VNull => EmptyString
                              | _ => ToString x
                              end) items)
  | VObj _ => "[object Object]"
  end.

(** [Number(v)] *)
Definition Number (v : value) : number :=
  match v with
  | VUndefined => NaN
  | VNull => Num 0
  | VBool true => Num 1
  | VBool false => Num 0
  | VNum n => n
  | VStr s => StringToNumber s
  | VArr _ | VObj _ => StringToNumber (ToString v)
  end.

End Conversions.

End JS.

Import JS (number, value).

(** ** Token bucket rate limiter *)

(** A queued [resolve] callback of an [acquire()] promise, named by the
    caller it resumes. *)
Definition Resolver : Type := nat.

Record TokenBucket : Type := mkTokenBucket {
  capacity : number;
  tokens : number;
  refillRate : number;       (* tokens per ms *)
  lastRefill : number;
  queue : list Resolver;
  processing : bool
}.

(** The bucket together with what the host has observed of it: how many
    times [Date.now()] was read, which resolvers were called (oldest
    first), and the delays of the [setTimeout(tick, waitMs)] callbacks
    that have not fired yet. *)
Record Loop : Type := mkLoop {
  bucket : TokenBucket;
  reads : nat;
  resolved : list Resolver;
  timers : list number
}.

Definition with_bucket (f : TokenBucket -> TokenBucket) (s : Loop) : Loop :=
  mkLoop (f (bucket s)) (reads s) (resolved s) (timers s).

Definition set_tokens (t : number) (b : TokenBucket) : TokenBucket :=
  mkTokenBucket (capacity b) t (refillRate b) (lastRefill b) (queue b) (processing b).

Definition set_lastRefill (t : number) (b : TokenBucket) : TokenBucket :=
  mkTokenBucket (capacity b) (tokens b) (refillRate b) t (queue b) (processing b).

Definition set_queue (q : list Resolver) (b : TokenBucket) : TokenBucket :=
  mkTokenBucket (capacity b) (tokens b) (refillRate b) (lastRefill b) q (processing b).

Definition set_processing (p : bool) (b : TokenBucket) : TokenBucket :=
  mkTokenBucket (capacity b) (tokens b) (refillRate b) (lastRefill b) (queue b) p.

(** [new TokenBucket(capacity, refillRate)], created when the clock shows
    [now]. *)
Definition TokenBucket_constructor (capacity refillRate : number) (now : Z)
  : TokenBucket :=
  {| capacity := capacity;
     tokens := capacity;
     refillRate := refillRate;
     lastRefill := JS.ofZ now;
     queue := [];
     processing := false |}.

Section EventLoop.

Variable Date_now : nat -> Z.

(** [const now = Date.now()] *)
Definition read_clock (s : Loop) : number * Loop :=
  (JS.ofZ (Date_now (reads s)),
   mkLoop (bucket s) (S (reads s)) (resolved s) (timers s)).

(** [_refill()]: credit the time elapsed since the last refill, capped
    at the capacity, and remember the reading. *)
Definition _refill (s : Loop) : Loop :=
  let (now, s) := read_clock s in
  let b := bucket s in
  let elapsed := JS.sub now (lastRefill b) in
  with_bucket
    (fun b =>
       set_lastRefill now
         (set_tokens
            (JS.min (capacity b) (JS.add (tokens b) (JS.mul elapsed (refillRate b))))
            b))
    s.

(** [this.queue.shift()()] for a queue whose head is [resolve]. *)
Definition call_resolve (resolve : Resolver) (rest : list Resolver) (s : Loop) : Loop :=
  mkLoop (set_queue rest (bucket s)) (reads s) (resolved s ++ [resolve]) (timers s).

(** [setTimeout(tick, waitMs)] *)
Definition setTimeout_tick (waitMs : number) (s : Loop) : Loop :=
  mkLoop (bucket s) (reads s) (resolved s) (timers s ++ [waitMs]).

(** [this.tokens -= 1] *)
Definition take_token (s : Loop) : Loop :=
  with_bucket (fun b => set_tokens (JS.sub (tokens b) (JS.Num 1)) b) s.

(** [(1 - this.tokens) / this.refillRate] *)
Definition waitMs (s : Loop) : number :=
  JS.div (JS.sub (JS.Num 1) (tokens (bucket s))) (refillRate (bucket s)).

(** The closure [tick] of [_process()]: serve the head of the queue
    while whole tokens are left; stop when the queue is empty or re-arm
    itself through [setTimeout] when less than one token is left. *)
Equations? tick (s : Loop) : Loop by wf (List.length (queue (bucket s))) lt :=
tick s with inspect (queue (bucket s)) := {
  | exist _ [] _ => with_bucket (set_processing false) s
  | exist _ (resolve :: rest) e =>
      let s1 := _refill s in
      if JS.ge (tokens (bucket s1)) (JS.Num 1) then
        tick (call_resolve resolve rest (take_token s1))
      else
        setTimeout_tick (waitMs s1) s1 }.
Proof.
  cbn. rewrite e. cbn. lia.
Qed.

(** [_process()]: start a drain unless one is in progress. *)
Definition _process (s : Loop) : Loop :=
  if processing (bucket s) then s
  else tick (with_bucket (set_processing true) s).

(** [acquire()]: the executor of the new promise pushes its [resolve] and
    calls [_process]. *)
Definition acquire (resolve : Resolver) (s : Loop) : Loop :=
  _process (with_bucket (fun b => set_queue (queue b ++ [resolve]) b) s).

(** The host fires the oldest pending [tick] timer. *)
Definition fire (s : Loop) : Loop :=
  match timers s with
  | [] => s
  | _ :: later => tick (mkLoop (bucket s) (reads s) (resolved s) later)
  end.

(** What can happen to a bucket: a caller calls [acquire()], or the host
    runs a pending [tick] callback. *)
Inductive Op : Type :=
| OpAcquire (resolve : Resolver)
| OpFire.

Definition step (s : Loop) (o : Op) : Loop :=
  match o with
  | OpAcquire r => acquire r s
  | OpFire => fire s
  end.

Definition steps (ops : list Op) (s : Loop) : Loop := fold_left step ops s.

End EventLoop.

(** The event loop around a bucket [b] whose constructor took the
    [n0]-th clock reading: nothing resumed yet, no timer pending. *)
Definition installed (n0 : nat) (b : TokenBucket) : Loop :=
  mkLoop b (S n0) [] [].

(** A bucket created by the [n0]-th clock reading. *)
Definition fresh (Date_now : nat -> Z) (C R : number) (n0 : nat) : Loop :=
  installed n0 (TokenBucket_constructor C R (Date_now n0)).

(** ** Error classes *)

Inductive Class : Type :=
| Error_class
| TypeError_class
| DOMException_class
| OxfordAPIError_class
| RateLimitError_class
| AuthError_class
| ServerUnavailableError_class.

(** A thrown object: its class and its own properties ([None]: the
    property does not exist on objects of that class). *)
Record Exception : Type := mkException {
  class : Class;
  name : string;
  message : string;
  status : option Z;
  details : option value;
  retryAfter : option value
}.

Section Errors.

Context {rt : JS.Runtime}.

(** The [message] an [Error] gets from its constructor argument. *)
Definition Error_message (m : value) : string :=
  match m with
  | JS.VUndefined => EmptyString
  | _ => JS.ToString m
  end.

Definition Error (m : value) : Exception :=
  mkException Error_class "Error" (Error_message m) None None None.

Definition TypeError (m : value) : Exception :=
  mkException TypeError_class "TypeError" (Error_message m) None None None.

(** [new OxfordAPIError(message, status, details = null)] *)
Definition OxfordAPIError (m : value) (st : Z) (d : value) : Exception :=
  {| class := OxfordAPIError_class;
     name := "OxfordAPIError";
     message := Error_message m;
     status := Some st;
     details := Some (match d with JS.VUndefined => JS.VNull | _ => d end);
     retryAfter := None |}.

(** [new RateLimitError(message, retryAfter = null)] *)
Definition RateLimitError (m : value) (ra : value) : Exception :=
  let super := OxfordAPIError m 429 JS.VUndefined in
  {| class := RateLimitError_class;
     name := "RateLimitError";
     message := message super;
     status := status super;
     details := details super;
     retryAfter := Some (match ra with JS.VUndefined => JS.VNull | _ => ra end) |}.

(** [new AuthError()] *)
Definition AuthError : Exception :=
  let super :=
    OxfordAPIError (JS.VStr "Invalid API key or unauthorized access") 403
                   JS.VUndefined in
  {| class := AuthError_class;
     name := "AuthError";
     message := message super;
     status := status super;
     details := details super;
     retryAfter := retryAfter super |}.

(** [new ServerUnavailableError(message)] *)
Definition ServerUnavailableError (m : value) : Exception :=
  let super :=
    OxfordAPIError (JS.or m (JS.VStr "Server data temporarily unavailable")) 503
                   JS.VUndefined in
  {| class := ServerUnavailableError_class;
     name := "ServerUnavailableError";
     message := message super;
     status := status super;
     details := details super;
     retryAfter := retryAfter super |}.

End Errors.

(** ** The transport *)

Definition lower (c : ascii) : ascii :=
  let n := nat_of_ascii c in
  if ((65 <=? n) && (n <=? 90))%nat then ascii_of_nat (n + 32) else c.

Fixpoint lowercase (s : string) : string :=
  match s with
  | EmptyString => EmptyString
  | String c s' => String (lower c) (lowercase s')
  end.

Module Response.

Record t : Type := mk {
  status : Z;
  statusText : string;
  headers : list (string * string);   (* header list, in arrival order *)
  text : string                       (* the body, as [res.text()] yields it
                                         when the body is read to its end *)
}.

(** [res.ok] *)
Definition ok (res : t) : bool := (200 <=? status res) && (status res <=? 299).

(** [res.headers.get(name)]: the values of the header, matched without
    regard to case and joined by a comma and a space; [null] when the
    header is absent. *)
Definition headers_get (res : t) (name : string) : value :=
  match filter (fun h => String.eqb (lowercase (fst h)) (lowercase name))
               (headers res) with
  | [] => JS.VNull
  | hs => JS.VStr (JS.join ", " (map snd hs))
  end.

End Response.

(** The second argument of [fetch]; the abort signal is the [abortAfter]
    of the suspension point below. *)
Record FetchOptions : Type := mkFetchOptions {
  fo_method : string;
  fo_headers : list (string * string);
  fo_body : option string
}.

(** How the promise returned by [res.text()] settles: the body is read
    to its end, the read fails (the connection is cut while the body
    streams), or the body never ends. *)
Inductive Reading : Type :=
| Completes
| Breaks (err : Exception)
| Stalls.

(** How the promise returned by [fetch] settles.  It is fulfilled as soon
    as the status line and the headers are there; [body] is what reading
    the body of that response will then do. *)
Inductive Settled : Type :=
| Fulfilled (res : Response.t) (body : Reading)
| Rejected (err : Exception).

(** ** Asynchronous bodies *)

(** The suspension points of the client's [async] code, in program order.
    [Await_fetch url options abortAfter k] stands for

      const controller = new AbortController();
      const timer = setTimeout(() => controller.abort(), abortAfter);
      ... await fetch(url, {...options, signal: controller.signal}) ...
      clearTimeout(timer)

    [Await_text res body k] for [await res.text()], which comes after
    the [clearTimeout] and outside every [try], and [Await_setTimeout ms k]
    for [await new Promise((r) => setTimeout(r, ms))]. *)
Inductive Prog (A : Type) : Type :=
| Return (a : A)
| Throw (e : Exception)
| Await_acquire (k : Prog A)
| Await_fetch (url : string) (options : FetchOptions) (abortAfter : Z)
              (k : Settled -> Prog A)
| Await_text (res : Response.t) (body : Reading) (k : string -> Prog A)
| Await_setTimeout (ms : number) (k : Prog A).

Arguments Return {A} a.
Arguments Throw {A} e.
Arguments Await_acquire {A} k.
Arguments Await_fetch {A} url options abortAfter k.
Arguments Await_text {A} res body k.
Arguments Await_setTimeout {A} ms k.

(** ** Core client *)

Record OxfordAPI : Type := mkOxfordAPI {
  serverKey : value;
  baseUrl : string;
  maxRetries : Z;
  timeout : Z;
  _bucket : option TokenBucket       (* [None]: null *)
}.

(** The argument of the constructor; a field is [VUndefined] or [None]
    when the caller left it out. *)
Record Options : Type := mkOptions {
  opt_serverKey : value;
  opt_rateLimit : value;
  opt_maxRetries : option Z;
  opt_timeout : option Z
}.

Inductive Completion (A : Type) : Type :=
| Normal (a : A)
| Abrupt (e : Exception).

Arguments Normal {A} a.
Arguments Abrupt {A} e.

Definition default {A} (o : option A) (d : A) : A :=
  match o with Some a => a | None => d end.

Definition value_eq_str (v : value) (s : string) : bool :=
  match v with JS.VStr s' => String.eqb s' s | _ => false end.

Section Executor.

Context {rt : JS.Runtime}.

(** [new OxfordAPI(options)], when the clock shows [now]. *)
Definition OxfordAPI_constructor (o : Options) (now : Z) : Completion OxfordAPI :=
  let serverKey := opt_serverKey o in
  let rateLimit :=
    match opt_rateLimit o with JS.VUndefined => JS.VStr "auto" | v => v end in
  let maxRetries := default (opt_maxRetries o) 3 in
  let timeout := default (opt_timeout o) 10000 in
  if negb (JS.truthy serverKey) then
    Abrupt (Error (JS.VStr "[oxfd.js] serverKey is required"))
  else
    Normal
      {| serverKey := serverKey;
         baseUrl := "https://api.oxfd.re/v1";
         maxRetries := maxRetries;
         timeout := timeout;
         _bucket :=
           if value_eq_str rateLimit "none" then None
           else if value_eq_str rateLimit "auto" then
             Some (TokenBucket_constructor
                     (JS.Num 10) (JS.div (JS.Num 29) (JS.Num 1000)) now)
           else
             Some (TokenBucket_constructor
                     (JS.Num 1)
                     (JS.div (JS.Num 1)
                             (JS.mul (JS.Number rateLimit) (JS.Num 1000)))
                     now) |}.

(** [if (this._bucket) await this._bucket.acquire();] *)
Definition gate {A} (this : OxfordAPI) (k : Prog A) : Prog A :=
  match _bucket this with
  | Some _ => Await_acquire k
  | None => k
  end.

(** The [options] of an attempt.  The parameter [body] is [null] when
    the caller passes nothing ([body = null]), and
    [if (body !== null) options.body = JSON.stringify(body)]. *)
Definition request_options (this : OxfordAPI) (method : string) (body : value)
  : FetchOptions :=
  {| fo_method := method;
     fo_headers :=
       [("server-key", JS.ToString (serverKey this));
        ("Content-Type", "application/json");
        ("Accept", "application/json")];
     fo_body :=
       match body with
       | JS.VUndefined | JS.VNull => None
       | _ => Some (JS.JSON_stringify body)
       end |}.

(** [try { data = text ? JSON.parse(text) : null; } catch { data = { message: text }; }] *)
Definition parse_body (text : string) : value :=
  if JS.str_nonempty text then
    match JS.JSON_parse text with
    | Some data => data
    | None => JS.VObj [("message", JS.VStr text)]
    end
  else JS.VNull.

(** The [if (!res.ok) { ... }] block, entered with [!res.ok]. *)
Definition reject_status (res : Response.t) (path : string) (data : value)
  : Exception :=
  let msg := JS.or (JS.get data "message") (JS.VStr (Response.statusText res)) in
  let detail := JS.or (JS.get data "error") JS.VNull in
  match Response.status res with
  | 400 => OxfordAPIError (JS.VStr ("Bad request: " ++ JS.ToString msg)) 400 detail
  | 403 => AuthError
  | 404 => OxfordAPIError (JS.VStr ("Not found: " ++ path)) 404 detail
  | 500 =>
      OxfordAPIError (JS.VStr ("Internal server error: " ++ JS.ToString msg)) 500 detail
  | 503 => ServerUnavailableError msg
  | st => OxfordAPIError msg st detail
  end.

Equations? _request (this : OxfordAPI) (method path : string) (body : value)
  (attempt : Z) : Prog value
  by wf (Z.to_nat (maxRetries this - attempt)) lt :=
_request this method path body attempt :=
  gate this
    (Await_fetch (baseUrl this ++ path) (request_options this method body)
       (timeout this)
       (fun settled =>
          match settled with
          | Rejected err =>
              if String.eqb (name err) "AbortError" then
                Throw (OxfordAPIError (JS.VStr "Request timed out") 408 JS.VUndefined)
              else
                Throw (OxfordAPIError
                         (JS.VStr ("Network error: " ++ message err)) 0
                         JS.VUndefined)
          | Fulfilled res reading =>
              if Response.status res =? 429 then
                match Z_lt_dec attempt (maxRetries this) with
                | left _ =>
                    let wait :=
                      JS.mul
                        (JS.Number
                           (JS.or (Response.headers_get res "Retry-After")
                                  (JS.VNum (JS.Num 1))))
                        (JS.Num 1000) in
                    Await_setTimeout wait
                      (_request this method path body (attempt + 1))
                | right _ =>
                    Throw (RateLimitError
                             (JS.VStr "Rate limit exceeded")
                             (Response.headers_get res "Retry-After"))
                end
              else
                Await_text res reading
                  (fun text =>
                     let data := parse_body text in
                     if negb (Response.ok res) then
                       Throw (reject_status res path data)
                     else Return data)
          end)).
Proof. lia. Qed.

(** [_get] and [_post] leave [attempt] out: it defaults to 0; [_get]
    leaves [body] out as well. *)
Definition _get (this : OxfordAPI) (path : string) : Prog value :=
  _request this "GET" path JS.VUndefined 0.

Definition _post (this : OxfordAPI) (path : string) (body : value) : Prog value :=
  _request this "POST" path body 0.

Definition getServer (this : OxfordAPI) := _get this "/server".
Definition getPlayers (this : OxfordAPI) := _get this "/server/players".
Definition getQueue (this : OxfordAPI) := _get this "/server/queue".
Definition getBans (this : OxfordAPI) := _get this "/server/bans".
Definition getKillLogs (this : OxfordAPI) := _get this "/server/killlogs".
Definition getCommandLogs (this : OxfordAPI) := _get this "/server/commandlogs".
Definition getModCalls (this : OxfordAPI) := _get this "/server/modcalls".
Definition getVehicles (this : OxfordAPI) := _get this "/server/vehicles".
Definition getRobberies (this : OxfordAPI) := _get this "/server/robberies".
Definition getRadioCalls (this : OxfordAPI) := _get this "/server/radiocalls".
Definition getJoinLogs (this : OxfordAPI) := _get this "/server/joinlogs".

Definition executeCommand (this : OxfordAPI) (command : value) : Prog value :=
  if negb (JS.truthy command) || negb (JS.is_string command) then
    Throw (TypeError (JS.VStr "[oxfd.js] command must be a non-empty string"))
  else
    _post this "/server/command" (JS.VObj [("command", command)]).

End Executor.

(** ** Running an asynchronous body against a transport *)

(** What the network does with one [fetch].  [Responds after res]: the
    status line and the headers of [res] arrive [after] milliseconds, and
    the body, read afterwards, arrives to its end.  [Truncates after res
    err]: the headers arrive, and reading the body fails with [err].
    [Hangs after res]: the headers arrive, and the body never ends.
    [Fails after err]: the call fails [after] milliseconds.  [Silent]:
    nothing ever arrives. *)
Inductive Transport : Type :=
| Responds (after : Z) (res : Response.t)
| Truncates (after : Z) (res : Response.t) (err : Exception)
| Hangs (after : Z) (res : Response.t)
| Fails (after : Z) (err : Exception)
| Silent.

(** The rejection reason of a [fetch] whose signal was aborted. *)
Definition AbortError : Exception :=
  mkException DOMException_class "AbortError" "This operation was aborted"
              None None None.

(** The delay after which the host fires a timer set with
    [setTimeout(f, ms)]: Node keeps a delay between 1 and 2^31 - 1 and
    replaces any other by 1. *)
Definition setTimeout_delay (ms : Z) : Z :=
  if (1 <=? ms) && (ms <=? 2147483647) then ms else 1.

(** The abort timer against the transport: [fetch] settles as the
    transport does when that happens before the timer fires, and rejects
    with [AbortError] otherwise.  The timer is cleared as soon as [fetch]
    has settled, so that it bears on the arrival of the headers only,
    not on the body read afterwards. *)
Definition settle (abortAfter : Z) (t : Transport) : Settled :=
  let fires := setTimeout_delay abortAfter in
  match t with
  | Responds after res =>
      if after <? fires then Fulfilled res Completes else Rejected AbortError
  | Truncates after res err =>
      if after <? fires then Fulfilled res (Breaks err) else Rejected AbortError
  | Hangs after res =>
      if after <? fires then Fulfilled res Stalls else Rejected AbortError
  | Fails after err =>
      if after <? fires then Rejected err else Rejected AbortError
  | Silent => Rejected AbortError
  end.

(** The calls a body makes on the gate, the transport and the timer:
    a wait at the gate that was served, a [fetch], a sleep.  Body reads
    are not recorded. *)
Inductive Event : Type :=
| Acquired
| Fetched (url : string) (options : FetchOptions) (abortAfter : Z)
| Slept (ms : number).

Inductive Outcome (A : Type) : Type :=
| Resolves (a : A)
| Rejects (e : Exception)
| Pending                     (* suspended on a fetch the script does not cover *)
| Stalled                     (* suspended for ever on a body that never ends *)
| Waiting.                    (* suspended at the gate, not resumed so far *)

Arguments Resolves {A} a.
Arguments Rejects {A} e.
Arguments Pending {A}.
Arguments Stalled {A}.
Arguments Waiting {A}.

(** [run p net]: the calls [p] makes, in order, and how it ends, when
    the successive calls of [fetch] meet the transport behaviours [net]
    and every wait at the gate and every sleep is served.  What the gate
    does is left out here: [run_gated] below runs the bucket as well, and
    differs from [run] only in stopping at a gate that does not resume
    the caller. *)
Fixpoint run {A} (p : Prog A) (net : list Transport) : list Event * Outcome A :=
  match p with
  | Return a => ([], Resolves a)
  | Throw e => ([], Rejects e)
  | Await_acquire k =>
      let (evs, out) := run k net in (Acquired :: evs, out)
  | Await_setTimeout ms k =>
      let (evs, out) := run k net in (Slept ms :: evs, out)
  | Await_text res body k =>
      match body with
      | Completes => run (k (Response.text res)) net
      | Breaks err => ([], Rejects err)
      | Stalls => ([], Stalled)
      end
  | Await_fetch url options abortAfter k =>
      match net with
      | [] => ([Fetched url options abortAfter], Pending)
      | t :: net' =>
          let (evs, out) := run (k (settle abortAfter t)) net' in
          (Fetched url options abortAfter :: evs, out)
      end
  end.

(** ** Running an asynchronous body against the bucket and a transport *)

Section Gated.

Variable Date_now : nat -> Z.

(** The number of firings of the drain loop's timer that the run looks
    at while a caller waits at the gate. *)
Variable patience : nat.

(** A resolver no caller of [s] has: the promise a new [acquire] makes. *)
Definition next_resolver (s : Loop) : Resolver :=
  S (list_max (resolved s ++ queue (bucket s))).

Definition resumed (r : Resolver) (s : Loop) : bool :=
  existsb (Nat.eqb r) (resolved s).

(** The caller of [acquire] is resumed when its resolver has been
    called; until then only a firing of the drain loop's timer can do
    that, and none will when no timer is armed. *)
Fixpoint await_resume (firings : nat) (r : Resolver) (s : Loop) : option Loop :=
  if resumed r s then Some s
  else
    match firings with
    | O => None
    | S firings' =>
        match timers s with
        | [] => None
        | _ :: _ => await_resume firings' r (fire Date_now s)
        end
    end.

(** [await this._bucket.acquire()] *)
Definition pass (s : Loop) : option Loop :=
  let r := next_resolver s in
  await_resume patience r (acquire Date_now r s).

(** [run_gated p s net]: as [run], with the waits at the gate run on the
    event loop [s] of the client's bucket. *)
Fixpoint run_gated {A} (p : Prog A) (s : Loop) (net : list Transport)
  : list Event * Outcome A :=
  match p with
  | Return a => ([], Resolves a)
  | Throw e => ([], Rejects e)
  | Await_acquire k =>
      match pass s with
      | Some s' =>
          let (evs, out) := run_gated k s' net in (Acquired :: evs, out)
      | None => ([], Waiting)
      end
  | Await_setTimeout ms k =>
      let (evs, out) := run_gated k s net in (Slept ms :: evs, out)
  | Await_text res body k =>
      match body with
      | Completes => run_gated (k (Response.text res)) s net
      | Breaks err => ([], Rejects err)
      | Stalls => ([], Stalled)
      end
  | Await_fetch url options abortAfter k =>
      match net with
      | [] => ([Fetched url options abortAfter], Pending)
      | t :: net' =>
          let (evs, out) := run_gated (k (settle abortAfter t)) s net' in
          (Fetched url options abortAfter :: evs, out)
      end
  end.

End Gated.

(** ** Grouped managers *)

Module Servers.
Record t : Type := mk { _api : OxfordAPI }.
Section Methods.
Context {rt : JS.Runtime}.
Definition getServer (this : t) := getServer (_api this).
Definition getPlayers (this : t) := getPlayers (_api this).
Definition getQueue (this : t) := getQueue (_api this).
Definition getBans (this : t) := getBans (_api this).
Definition getVehicles (this : t) := getVehicles (_api this).
Definition getRobberies (this : t) := getRobberies (_api this).
End Methods.
End Servers.

Module Logs.
Record t : Type := mk { _api : OxfordAPI }.
Section Methods.
Context {rt : JS.Runtime}.
Definition getKillLogs (this : t) := getKillLogs (_api this).
Definition getCommandLogs (this : t) := getCommandLogs (_api this).
Definition getModCalls (this : t) := getModCalls (_api this).
Definition getRadioCalls (this : t) := getRadioCalls (_api this).
Definition getJoinLogs (this : t) := getJoinLogs (_api this).
End Methods.
End Logs.

Module Commands.
Record t : Type := mk { _api : OxfordAPI }.
Section Methods.
Context {rt : JS.Runtime}.
Definition execute (this : t) (command : value) := executeCommand (_api this) command.
End Methods.
End Commands.

(** [this.servers = new Servers(this)] and its two siblings: the managers
    of a client are built from the client itself and never reassigned. *)
Definition servers (this : OxfordAPI) : Servers.t := Servers.mk this.
Definition logs (this : OxfordAPI) : Logs.t := Logs.mk this.
Definition commands (this : OxfordAPI) : Commands.t := Commands.mk this.

(** ** A reference runtime

    An executable instance of [Runtime], used to run the client on
    concrete inputs.  It follows ECMAScript on the inputs it accepts:
    [StringToNumber] reads decimal literals (sign, fraction, exponent),
    [Infinity] and the 0x/0o/0b forms, and answers NaN otherwise;
    [JSON_parse] reads JSON without [\u] escapes; numbers print as
    integers or as a decimal expansion cut at twenty places. *)

Module Node.

Definition code (c : ascii) : Z := Z.of_nat (nat_of_ascii c).
Definition chr (n : Z) : ascii := ascii_of_nat (Z.to_nat n).
Definition dquote : ascii := chr 34.
Definition backslash : ascii := chr 92.

Definition is_ws (c : ascii) : bool :=
  let n := code c in
  (n =? 9) || (n =? 10) || (n =? 11) || (n =? 12) || (n =? 13) || (n =? 32).

Fixpoint ltrim (s : string) : string :=
  match s with
  | String c s' => if is_ws c then ltrim s' else s
  | EmptyString => s
  end.

Fixpoint rev_onto (s acc : string) : string :=
  match s with
  | EmptyString => acc
  | String c s' => rev_onto s' (String c acc)
  end.

Definition trim (s : string) : string :=
  rev_onto (ltrim (rev_onto (ltrim s) EmptyString)) EmptyString.

(** The value of [c] as a digit in [radix], if it is one. *)
Definition digit (radix : Z) (c : ascii) : option Z :=
  let n := code c in
  let d :=
    if (48 <=? n) && (n <=? 57) then n - 48
    else if (97 <=? n) && (n <=? 102) then n - 87
    else if (65 <=? n) && (n <=? 70) then n - 55
    else 99 in
  if d <? radix then Some d else None.

(** Leading digits of [s]: their value after [acc], how many there were,
    and the rest of [s]. *)
Fixpoint digits (radix : Z) (s : string) (acc : Z) (count : nat)
  : Z * nat * string :=
  match s with
  | String c s' =>
      match digit radix c with
      | Some d => digits radix s' (acc * radix + d) (S count)
      | None => (acc, count, s)
      end
  | EmptyString => (acc, count, s)
  end.

Definition is_char (c : ascii) (n : Z) : bool := code c =? n.

(** An optional sign: [true] for a minus. *)
Definition sign (s : string) : bool * string :=
  match s with
  | String c s' =>
      if is_char c 45 then (true, s')
      else if is_char c 43 then (false, s')
      else (false, s)
  | EmptyString => (false, s)
  end.

(** Optional exponent part; [None] when it is malformed. *)
Definition exponent (s : string) : option (Z * string) :=
  match s with
  | String c s' =>
      if is_char c 101 || is_char c 69 then
        let (neg, s1) := sign s' in
        match digits 10 s1 0 0 with
        | (_, O, _) => None
        | (e, _, rest) => Some (if neg then - e else e, rest)
        end
      else Some (0, s)
  | EmptyString => Some (0, s)
  end.

(** An unsigned decimal literal at the head of [s]. *)
Definition decimal (s : string) : option (Q * string) :=
  let '(ip, n1, rest) := digits 10 s 0 0 in
  let '(fp, n2, rest) :=
    match rest with
    | String c r => if is_char c 46 then digits 10 r 0 0 else (0, O, rest)
    | EmptyString => (0, O, rest)
    end in
  match n1, n2 with
  | O, O => None
  | _, _ =>
      match exponent rest with
      | Some (e, rest') =>
          Some (((inject_Z ip + inject_Z fp / inject_Z (10 ^ Z.of_nat n2))
                 * Qpower 10 e)%Q, rest')
      | None => None
      end
  end.

Definition radix_of (c : ascii) : option Z :=
  if is_char c 120 || is_char c 88 then Some 16
  else if is_char c 111 || is_char c 79 then Some 8
  else if is_char c 98 || is_char c 66 then Some 2
  else None.

Definition StringToNumber (s : string) : number :=
  let s := trim s in
  let plain :=
    let (neg, body) := sign s in
    if String.eqb body "Infinity" then JS.Inf neg
    else
      match decimal body with
      | Some (q, EmptyString) => JS.Num (Qred (if neg then - q else q))
      | _ => JS.NaN
      end in
  match s with
  | EmptyString => JS.Num 0
  | String z (String x body) =>
      match (if is_char z 48 then radix_of x else None) with
      | Some radix =>
          match digits radix body 0 0 with
          | (_, O, _) => JS.NaN
          | (n, _, EmptyString) => JS.ofZ n
          | _ => JS.NaN
          end
      | None => plain
      end
  | _ => plain
  end.

Definition string_of_Z (z : Z) : string :=
  DecimalString.NilZero.string_of_int (Z.to_int z).

(** Up to [n] decimal places of [r / d], for [0 <= r < d]. *)
Fixpoint places (n : nat) (r d : Z) : string :=
  match n with
  | O => EmptyString
  | S n' =>
      if r =? 0 then EmptyString
      else String (chr (48 + (r * 10) / d)) (places n' ((r * 10) mod d) d)
  end.

Definition NumberToString (n : number) : string :=
  match n with
  | JS.NaN => "NaN"
  | JS.Inf false => "Infinity"
  | JS.Inf true => "-Infinity"
  | JS.Num q =>
      let q := Qred q in
      let num := Z.abs (Qnum q) in
      let den := Z.pos (Qden q) in
      let whole := string_of_Z (num / den) in
      let frac := places 20 (num mod den) den in
      let minus := if Qnum q <? 0 then "-" else EmptyString in
      (minus ++ whole ++
       (if JS.str_nonempty frac then "." ++ frac else EmptyString))%string
  end.

Definition skip_ws (s : string) : string := ltrim s.

(** The characters of a string literal up to its closing quote. *)
Fixpoint string_body (s : string) (acc : string) : option (string * string) :=
  match s with
  | EmptyString => None
  | String c s' =>
      if Ascii.eqb c dquote then Some (rev_onto acc EmptyString, s')
      else if Ascii.eqb c backslash then
        match s' with
        | String e s'' =>
            let keep (x : ascii) := string_body s'' (String x acc) in
            if Ascii.eqb e dquote then keep dquote
            else if Ascii.eqb e backslash then keep backslash
            else if is_char e 47 then keep (chr 47)
            else if is_char e 98 then keep (chr 8)
            else if is_char e 102 then keep (chr 12)
            else if is_char e 110 then keep (chr 10)
            else if is_char e 114 then keep (chr 13)
            else if is_char e 116 then keep (chr 9)
            else None
        | EmptyString => None
        end
      else if code c <? 32 then None
      else string_body s' (String c acc)
  end.

(** A JSON number at the head of [s] (stricter than [decimal]: no
    leading zeros, no bare dot). *)
Definition json_number (s : string) : option (Q * string) :=
  let (neg, body) :=
    match s with
    | String c s' => if is_char c 45 then (true, s') else (false, s)
    | EmptyString => (false, s)
    end in
  let '(_, n1, rest) := digits 10 body 0 0 in
  let leading_zero :=
    match body with
    | String c _ => is_char c 48 && negb (Nat.eqb n1 1)
    | EmptyString => false
    end in
  let bare_dot :=
    match rest with
    | String c r =>
        is_char c 46 &&
        match digits 10 r 0 0 with (_, O, _) => true | _ => false end
    | EmptyString => false
    end in
  if Nat.eqb n1 0 || leading_zero || bare_dot then None
  else
    match decimal body with
    | Some (q, rest') => Some (Qred (if neg then - q else q), rest')
    | None => None
    end.

Fixpoint set_prop (k : string) (v : value) (ps : list (string * value))
  : list (string * value) :=
  match ps with
  | [] => [(k, v)]
  | (k', v') :: ps' =>
      if String.eqb k k' then (k, v) :: ps' else (k', v') :: set_prop k v ps'
  end.

Definition literal (word : string) (v : value) (s : string)
  : option (value * string) :=
  if String.prefix word s
  then Some (v, string_of_list_ascii
                  (skipn (String.length word) (list_ascii_of_string s)))
  else None.

Fixpoint json_value (fuel : nat) (s : string) : option (value * string) :=
  match fuel with
  | O => None
  | S fuel =>
      match skip_ws s with
      | EmptyString => None
      | String c rest as s1 =>
          if is_char c 110 then literal "null" JS.VNull s1
          else if is_char c 116 then literal "true" (JS.VBool true) s1
          else if is_char c 102 then literal "false" (JS.VBool false) s1
          else if Ascii.eqb c dquote then
            match string_body rest EmptyString with
            | Some (str, rest') => Some (JS.VStr str, rest')
            | None => None
            end
          else if is_char c 91 then
            match skip_ws rest with
            | String c' rest' =>
                if is_char c' 93 then Some (JS.VArr [], rest')
                else json_items fuel rest []
            | EmptyString => None
            end
          else if is_char c 123 then
            match skip_ws rest with
            | String c' rest' =>
                if is_char c' 125 then Some (JS.VObj [], rest')
                else json_members fuel rest []
            | EmptyString => None
            end
          else
            match json_number s1 with
            | Some (q, rest') => Some (JS.VNum (JS.Num q), rest')
            | None => None
            end
      end
  end
with json_items (fuel : nat) (s : string) (acc : list value)
  : option (value * string) :=
  match fuel with
  | O => None
  | S fuel =>
      match json_value fuel s with
      | Some (v, rest) =>
          match skip_ws rest with
          | String c rest' =>
              if is_char c 44 then json_items fuel rest' (acc ++ [v])
              else if is_char c 93 then Some (JS.VArr (acc ++ [v]), rest')
              else None
          | EmptyString => None
          end
      | None => None
      end
  end
with json_members (fuel : nat) (s : string) (acc : list (string * value))
  : option (value * string) :=
  match fuel with
  | O => None
  | S fuel =>
      match skip_ws s with
      | String q rest =>
          if Ascii.eqb q dquote then
            match string_body rest EmptyString with
            | Some (key, rest1) =>
                match skip_ws rest1 with
                | String colon rest2 =>
                    if is_char colon 58 then
                      match json_value fuel rest2 with
                      | Some (v, rest3) =>
                          match skip_ws rest3 with
                          | String c rest' =>
                              if is_char c 44 then
                                json_members fuel rest' (set_prop key v acc)
                              else if is_char c 125 then
                                Some (JS.VObj (set_prop key v acc), rest')
                              else None
                          | EmptyString => None
                          end
                      | None => None
                      end
                    else None
                | EmptyString => None
                end
            | None => None
            end
          else None
      | EmptyString => None
      end
  end.

Definition JSON_parse (s : string) : option value :=
  match json_value (2 * String.length s + 2) s with
  | Some (v, rest) =>
      match skip_ws rest with
      | EmptyString => Some v
      | _ => None
      end
  | None => None
  end.

Fixpoint quote_body (s : string) : string :=
  match s with
  | EmptyString => EmptyString
  | String c s' =>
      if Ascii.eqb c dquote || Ascii.eqb c backslash
      then String backslash (String c (quote_body s'))
      else String c (quote_body s')
  end.

Definition quote (s : string) : string :=
  String dquote (quote_body s ++ String dquote EmptyString)%string.

Fixpoint JSON_stringify (v : value) : string :=
  match v with
  | JS.VUndefined => "undefined"
  | JS.VNull => "null"
  | JS.VBool true => "true"
  | JS.VBool false => "false"
  | JS.VNum (JS.Num q) => NumberToString (JS.Num q)
  | JS.VNum _ => "null"
  | JS.VStr s => quote s
  | JS.VArr items =>
      ("[" ++ JS.join ","
                (map (fun x => match x with
                               | JS.VUndefined => "null"
                               | _ => JSON_stringify x
                               end) items) ++ "]")%string
  | JS.VObj props =>
      ("{" ++ JS.join ","
                (flat_map (fun p : string * value => let (k, x) := p in
                                    match x with
                                    | JS.VUndefined => []
                                    | _ => [(quote k ++ ":" ++ JSON_stringify x)%string]
                                    end) props) ++ "}")%string
  end.

#[export] Instance runtime : JS.Runtime :=
  {| JS.JSON_parse := JSON_parse;
     JS.JSON_stringify := JSON_stringify;
     JS.StringToNumber := StringToNumber;
     JS.NumberToString := NumberToString |}.

End Node.

(** ** Vocabulary of the statements *)

Section Vocabulary.

Context {rt : JS.Runtime}.

(** What a call records when it passes the admission gate. *)
Definition admission (this : OxfordAPI) : list Event :=
  match _bucket this with
  | Some _ => [Acquired]
  | None => []
  end.

(** The [fetch] a request issues. *)
Definition fetch_event (this : OxfordAPI) (method path : string) (body : value)
  : Event :=
  Fetched (baseUrl this ++ path) (request_options this method body) (timeout this).

(** The milliseconds after which the abort timer of an attempt fires:
    the configured [timeout], as the host's timer takes it. *)
Definition deadline (this : OxfordAPI) : Z := setTimeout_delay (timeout this).



(** A command argument that [executeCommand] accepts. *)
Definition nonempty_string (v : value) : Prop :=
  exists c s, v = JS.VStr (String c s).

End Vocabulary.

(** The resolvers handed to [acquire], in call order. *)
Definition arrivals (ops : list Op) : list Resolver :=
  flat_map (fun o => match o with OpAcquire r => [r] | OpFire => [] end) ops.

(** Number of resolvers called so far, as a rational. *)
Definition granted (s : Loop) : Q := inject_Z (Z.of_nat (List.length (resolved s))).

(** The clock never steps back from reading [n0] on. *)
Definition monotone (Date_now : nat -> Z) (n0 : nat) : Prop :=
  forall i j, (n0 <= i)%nat -> (i <= j)%nat -> Date_now i <= Date_now j.

(** The clock stands still from reading [n0] on. *)
Definition frozen (Date_now : nat -> Z) (n0 : nat) : Prop :=
  forall i, (n0 <= i)%nat -> Date_now i = Date_now n0.

(** Between two operations either a drain is suspended on exactly one
    timer, or nothing is queued and no timer is pending. *)
Definition settled (s : Loop) : Prop :=
  (processing (bucket s) = true /\ (exists w, timers s = [w]) /\
   queue (bucket s) <> []) \/
  (processing (bucket s) = false /\ timers s = [] /\ queue (bucket s) = []).

(** While [tick] runs it is the only drain: the flag is set and no other
    [tick] is scheduled. *)
Definition draining (s : Loop) : Prop :=
  processing (bucket s) = true /\ timers s = [].

(** The reading stored in [lastRefill]. *)
Definition last_reading (Date_now : nat -> Z) (s : Loop) : Q :=
  inject_Z (Date_now (reads s - 1)%nat).

(** Token accounting of a bucket of capacity [C] and rate [R] created at
    reading [n0]. *)
Definition accounted (Date_now : nat -> Z) (C R : Q) (n0 : nat) (s : Loop) : Prop :=
  capacity (bucket s) = JS.Num C /\
  refillRate (bucket s) = JS.Num R /\
  (n0 < reads s)%nat /\
  lastRefill (bucket s) = JS.Num (last_reading Date_now s) /\
  exists t : Q,
    tokens (bucket s) = JS.Num t /\
    (t <= C)%Q /\
    (monotone Date_now n0 ->
       (0 <= t)%Q /\
       (t + granted s <=
        C + R * (last_reading Date_now s - inject_Z (Date_now n0)))%Q) /\
    (frozen Date_now n0 -> (t + granted s == C)%Q).



(** ** Concrete inputs *)

Module Demo.

(** A client built by the constructor at clock reading 5000. *)
Definition client (rateLimit : value) (retries : option Z) : OxfordAPI :=
  match OxfordAPI_constructor (rt := Node.runtime)
          (mkOptions (JS.VStr "key") rateLimit retries None) 5000 with
  | Normal api => api
  | Abrupt _ => mkOxfordAPI JS.VNull EmptyString 0 0 None
  end.

Definition limited (retryAfter : string) : Response.t :=
  Response.mk 429 "Too Many Requests" [("retry-after", retryAfter)] EmptyString.

Definition http_date : string := "Wed, 21 Oct 2015 07:28:00 GMT".

(** The text [{"message":"maintenance","error":"E_DOWN"}]. *)
Definition maintenance_text : string :=
  JS.JSON_stringify (Runtime := Node.runtime)
    (JS.VObj [("message", JS.VStr "maintenance"); ("error", JS.VStr "E_DOWN")]).

Definition answer (status : Z) (statusText text : string) : Response.t :=
  Response.mk status statusText [] text.

(** A clock that shows 10000 for its first two readings and 5000 from
    then on: the system time was set back by five seconds. *)
Definition set_back (n : nat) : Z := if (n <=? 1)%nat then 10000 else 5000.

(** A clock advancing 3 ms per reading. *)
Definition steady (n : nat) : Z := 1000 + 3 * Z.of_nat n.

(** A clock that stands still. *)
Definition still (n : nat) : Z := 1000.

(** Ten callers, then an eleventh. *)
Definition ten : list Resolver := seq 1 10.

(** Clients and answers of the concrete runs. *)
Definition auto1 : OxfordAPI := client (JS.VStr "auto") (Some 1).
Definition auto : OxfordAPI := client (JS.VStr "auto") None.
Definition ungated : OxfordAPI := client (JS.VStr "none") None.
Definition every2s_options : Options :=
  mkOptions (JS.VStr "key") (JS.VNum (JS.Num 2)) None None.


Definition pair_answer : Response.t := answer 200 "OK" "[1,2]".
Definition maintenance : Response.t := answer 503 EmptyString maintenance_text.
Definition forbidden : Response.t := answer 403 "Forbidden" maintenance_text.

Definition eleven_acquires : list Op := map OpAcquire (ten ++ [11%nat]).
Definition twelve_ops : list Op := eleven_acquires ++ [OpFire].
Definition three_callers : list Op :=
  [OpAcquire 7%nat; OpAcquire 8%nat; OpFire; OpAcquire 9%nat].

(** The automatic bucket created at the first reading of [steady], and a
    one-token bucket created at the first reading of [still]. *)
Definition auto_loop : Loop :=
  fresh steady (JS.Num 10) (JS.Num (29 # 1000)) 0.
Definition single_loop : Loop :=
  fresh still (JS.Num 1) (JS.Num (1 # 2000)) 0.

End Demo.

(** ** Vocabulary of the further properties *)

Section Attempts.

Context {rt : JS.Runtime}.

(** [Number(res.headers.get("Retry-After") || 1) * 1000] *)
Definition retry_delay (res : Response.t) : number :=
  JS.mul
    (JS.Number (JS.or (Response.headers_get res "Retry-After") (JS.VNum (JS.Num 1))))
    (JS.Num 1000).

(** The calls of a request that sleeps [delays] between its attempts:
    each attempt passes the gate and issues the same fetch. *)
Fixpoint attempts (this : OxfordAPI) (method path : string) (body : value)
  (delays : list number) : list Event :=
  match delays with
  | [] => admission this ++ [fetch_event this method path body]
  | w :: later =>
      admission this ++ fetch_event this method path body :: Slept w ::
      attempts this method path body later
  end.

(** The transport answers 429 before the deadline of [this]. *)
Definition limits (this : OxfordAPI) (t : Transport) : Prop :=
  exists after res,
    t = Responds after res /\ after < deadline this /\ Response.status res = 429.


(** The retries left to a call at attempt count [n]. *)
Definition retries_left (this : OxfordAPI) (n : Z) : nat :=
  Z.to_nat (maxRetries this - n).


End Attempts.

(** How many fetches and how many sleeps a trace holds. *)
Definition is_fetch (ev : Event) : bool :=
  match ev with Fetched _ _ _ => true | _ => false end.

Definition is_sleep (ev : Event) : bool :=
  match ev with Slept _ => true | _ => false end.

Definition is_acquire (ev : Event) : bool :=
  match ev with Acquired => true | _ => false end.

(** Nobody waits while a whole token is in the bucket. *)
Definition work_conserving (s : Loop) : Prop :=
  queue (bucket s) <> [] -> JS.ge (tokens (bucket s)) (JS.Num 1) = false.

(** Every pending timer waits a positive time, at most the time one
    token takes to refill at rate [R]. *)
Definition bounded_timers (R : Q) (s : Loop) : Prop :=
  forall w, In w (timers s) ->
    exists q, w = JS.Num q /\ (0 < q)%Q /\ (q <= 1 / R)%Q.

(** A bucket whose refill rate is NaN and that has resumed nobody. *)
Definition poisoned (s : Loop) : Prop :=
  refillRate (bucket s) = JS.NaN /\ resolved s = [].

(** ** Further concrete inputs *)

Module Cases.

(** Two 429 answers, asking for 2 and for 7 seconds. *)
Definition two_limits : list Transport :=
  [Responds 20 (Demo.limited "2"); Responds 25 (Demo.limited "7")].

(** A 418 answer whose body carries a message and an error code. *)
Definition teapot : Response.t :=
  Demo.answer 418 "I'm a teapot" Demo.maintenance_text.

(** Options whose mode is misspelt, and the client built from them. *)
Definition misspelt_options : Options :=
  mkOptions (JS.VStr "key") (JS.VStr "Auto") None None.
Definition misspelt : OxfordAPI :=
  match OxfordAPI_constructor (rt := Node.runtime) misspelt_options 5000 with
  | Normal api => api
  | Abrupt _ => mkOxfordAPI JS.VNull EmptyString 0 0 None
  end.

(** Options without a key. *)
Definition keyless_options : Options :=
  mkOptions JS.VUndefined JS.VUndefined None None.

Definition kick : value := JS.VStr "kick A".


(** The event loop of the bucket of [misspelt]. *)
Definition starved_loop : Loop :=
  installed 0
    (default (_bucket misspelt) (TokenBucket_constructor (JS.Num 1) JS.NaN 5000)).

End Cases.

(** * Theorems *)

(** ** The drain loop *)

Section TickRule.

Variable Date_now : nat -> Z.

Lemma tick_nil s :
  queue (bucket s) = [] ->
  tick Date_now s = with_bucket (set_processing false) s.
Proof.
  intros Hq. funelim (tick Date_now s).
  - reflexivity.
  - congruence.
Qed.

Lemma tick_cons s r rest :
  queue (bucket s) = r :: rest ->
  tick Date_now s =
  let s1 := _refill Date_now s in
  if JS.ge (tokens (bucket s1)) (JS.Num 1)
  then tick Date_now (call_resolve r rest (take_token s1))
  else setTimeout_tick (waitMs s1) s1.
Proof.
  intros Hq. funelim (tick Date_now s).
  - congruence.
  - rewrite e in Hq. injection Hq as -> ->. reflexivity.
Qed.

(** Hoare-style rule for one run of [tick]: [P] holds while the loop
    runs, [Q] when it returns (queue drained, or a timer armed). *)
Lemma tick_rule (P Q : Loop -> Prop) :
  (forall s, P s -> queue (bucket s) = [] ->
             Q (with_bucket (set_processing false) s)) ->
  (forall s, P s -> queue (bucket s) <> [] -> P (_refill Date_now s)) ->
  (forall s r rest, P s -> queue (bucket s) = r :: rest ->
             JS.ge (tokens (bucket s)) (JS.Num 1) = true ->
             P (call_resolve r rest (take_token s))) ->
  (forall s, P s -> queue (bucket s) <> [] ->
             JS.ge (tokens (bucket s)) (JS.Num 1) = false ->
             Q (setTimeout_tick (waitMs s) s)) ->
  forall s, P s -> Q (tick Date_now s).
Proof.
  intros Hidle Hrefill Hgrant Hwait s.
  funelim (tick Date_now s); intros HP.
  - auto.
  - assert (Hne : queue (bucket s) <> []) by (rewrite e; discriminate).
    pose proof (Hrefill _ HP Hne) as HP1.
    destruct (JS.ge (tokens (bucket (_refill Date_now s))) (JS.Num 1)) eqn:Hge.
    + match goal with IH : forall P Q : Loop -> Prop, _ |- _ =>
        apply (IH P Q); auto end.
    + apply Hwait; auto.
Qed.

(** The same rule for every operation of the event loop.  [B] holds
    between operations; [P] while [tick] runs. *)
Lemma step_rule (B P : Loop -> Prop) :
  (forall s, P s -> queue (bucket s) = [] ->
             B (with_bucket (set_processing false) s)) ->
  (forall s, P s -> queue (bucket s) <> [] -> P (_refill Date_now s)) ->
  (forall s r rest, P s -> queue (bucket s) = r :: rest ->
             JS.ge (tokens (bucket s)) (JS.Num 1) = true ->
             P (call_resolve r rest (take_token s))) ->
  (forall s, P s -> queue (bucket s) <> [] ->
             JS.ge (tokens (bucket s)) (JS.Num 1) = false ->
             B (setTimeout_tick (waitMs s) s)) ->
  (forall s r, B s -> processing (bucket s) = true ->
             B (with_bucket (fun b => set_queue (queue b ++ [r]) b) s)) ->
  (forall s r, B s -> processing (bucket s) = false ->
             P (with_bucket (set_processing true)
                  (with_bucket (fun b => set_queue (queue b ++ [r]) b) s))) ->
  (forall s w later, B s -> timers s = w :: later ->
             P (mkLoop (bucket s) (reads s) (resolved s) later)) ->
  forall s o, B s -> B (step Date_now s o).
Proof.
  intros Hidle Hrefill Hgrant Hwait Hjoin Hstart Hfire s o HB.
  destruct o as [r|]; cbn [step].
  - unfold acquire, _process. cbn.
    destruct (processing (bucket s)) eqn:Hp.
    + apply Hjoin; assumption.
    + apply (tick_rule P B); auto.
  - unfold fire. destruct (timers s) as [|w later] eqn:Ht; [assumption|].
    apply (tick_rule P B); eauto.
Qed.

End TickRule.

(** ** Arrival order and the single drain loop *)

Section Fifo.

Variable Date_now : nat -> Z.

Lemma steps_snoc ops o s :
  steps Date_now (ops ++ [o]) s = step Date_now (steps Date_now ops s) o.
Proof. unfold steps. rewrite fold_left_app. reflexivity. Qed.

Lemma arrivals_snoc ops o :
  arrivals (ops ++ [o]) =
  arrivals ops ++ match o with OpAcquire r => [r] | OpFire => [] end.
Proof. unfold arrivals. rewrite flat_map_app. cbn. rewrite app_nil_r. reflexivity. Qed.

Lemma tick_fifo s :
  resolved (tick Date_now s) ++ queue (bucket (tick Date_now s)) =
  resolved s ++ queue (bucket s).
Proof.
  apply (tick_rule Date_now
           (fun s' => resolved s' ++ queue (bucket s') = resolved s ++ queue (bucket s))
           (fun s' => resolved s' ++ queue (bucket s') = resolved s ++ queue (bucket s)));
    cbn; auto.
  intros s' r rest H Hq _. rewrite <- app_assoc. cbn. rewrite <- Hq. exact H.
Qed.

Lemma step_fifo s o :
  resolved (step Date_now s o) ++ queue (bucket (step Date_now s o)) =
  (resolved s ++ queue (bucket s)) ++
  match o with OpAcquire r => [r] | OpFire => [] end.
Proof.
  destruct o as [r|]; cbn [step].
  - unfold acquire, _process. cbn.
    destruct (processing (bucket s)); cbn.
    + now rewrite app_assoc.
    + rewrite tick_fifo. cbn. now rewrite app_assoc.
  - rewrite app_nil_r. unfold fire. destruct (timers s); [reflexivity|].
    now rewrite tick_fifo.
Qed.

Lemma steps_fifo ops s :
  resolved (steps Date_now ops s) ++ queue (bucket (steps Date_now ops s)) =
  (resolved s ++ queue (bucket s)) ++ arrivals ops.
Proof.
  induction ops as [|o ops IH] using rev_ind.
  - cbn. now rewrite app_nil_r.
  - rewrite steps_snoc, step_fifo, IH, arrivals_snoc. now rewrite app_assoc.
Qed.

Lemma step_settled s o : settled s -> settled (step Date_now s o).
Proof.
  apply (step_rule Date_now settled draining); unfold settled, draining; cbn.
  - intros s' [_ Ht] Hq. right. auto.
  - intros s' H _. exact H.
  - intros s' r rest H _ _. exact H.
  - intros s' [Hp Ht] Hq _. left. rewrite Ht. cbn. eauto.
  - intros s' r [[Hp [Ht Hq]]|[Hp _]] Hp'; [|congruence].
    left. repeat split; auto. now destruct (queue (bucket s')).
  - intros s' r [[Hp _]|[_ [Ht _]]] Hp'; [congruence|]. auto.
  - intros s' w later [[Hp [[w' Ht] _]]|[_ [Ht _]]] Ht'; [|congruence].
    split; [assumption|congruence].
Qed.

Lemma steps_settled ops s : settled s -> settled (steps Date_now ops s).
Proof.
  intros Hs. induction ops as [|o ops IH] using rev_ind; [exact Hs|].
  rewrite steps_snoc. now apply step_settled.
Qed.

Lemma fresh_settled C R n0 : settled (fresh Date_now C R n0).
Proof. right. cbn. auto. Qed.

End Fifo.

(** ** Token accounting *)

Section Accounting.

Variable Date_now : nat -> Z.
Variables (C R : Q) (n0 : nat).
Hypothesis C_nonneg : (0 <= C)%Q.
Hypothesis R_nonneg : (0 <= R)%Q.

Local Abbreviation acc := (accounted Date_now C R n0).

Ltac acc_intro x :=
  refine (conj _ (conj _ (conj _ (conj _
            (ex_intro _ x (conj _ (conj _ (conj _ _)))))))).

Lemma granted_nonneg s : (0 <= granted s)%Q.
Proof. unfold granted. rewrite <- (Zle_Qle 0). lia. Qed.

Lemma granted_call_resolve r rest s :
  (granted (call_resolve r rest s) == granted s + 1)%Q.
Proof.
  unfold granted. cbn. rewrite length_app. cbn.
  rewrite Nat2Z.inj_add. cbn. rewrite inject_Z_plus. reflexivity.
Qed.

Lemma fresh_accounted : acc (fresh Date_now (JS.Num C) (JS.Num R) n0).
Proof.
  unfold accounted, fresh, last_reading, granted. cbn.
  rewrite Nat.sub_0_r. change (inject_Z 0) with 0%Q.
  acc_intro C; auto; lra.
Qed.

Lemma _refill_accounted s : acc s -> acc (_refill Date_now s).
Proof.
  intros (Hc & Hr & Hn & Hl & t & Ht & HtC & Hmono & Hfrozen).
  pose proof (granted_nonneg s) as Hg.
  unfold accounted, last_reading in *.
  change (granted (_refill Date_now s)) with (granted s).
  unfold _refill. cbn -[granted] in *.
  rewrite Nat.sub_0_r.
  rewrite Hc, Hr, Hl, Ht. cbn -[granted].
  set (now := inject_Z (Date_now (reads s))) in *.
  set (last := inject_Z (Date_now (reads s - 1)%nat)) in *.
  set (x := (t + (now + - last) * R)%Q).
  assert (Hlast : monotone Date_now n0 -> (last <= now)%Q).
  { intros Hm. unfold last, now. rewrite <- Zle_Qle. apply Hm; lia. }
  assert (Hsame : frozen Date_now n0 -> (last == now)%Q).
  { intros Hf. unfold last, now.
    rewrite (Hf (reads s)), (Hf (reads s - 1)%nat) by lia. reflexivity. }
  destruct (Qle_bool C x) eqn:Hle.
  - apply Qle_bool_iff in Hle. unfold x in Hle.
    acc_intro C; auto; try lra.
    + intros Hm. destruct (Hmono Hm) as [H0 Hled]. specialize (Hlast Hm).
      split; [lra | nra].
    + intros Hf. specialize (Hfrozen Hf). specialize (Hsame Hf).
      assert (t + (now + - last) * R == t)%Q by (rewrite Hsame; ring).
      lra.
  - assert (Hlt : (x < C)%Q).
    { apply Qnot_le_lt. intros H. apply Qle_bool_iff in H. congruence. }
    acc_intro x; auto; try lra.
    + intros Hm. destruct (Hmono Hm) as [H0 Hled]. specialize (Hlast Hm).
      unfold x. split; nra.
    + intros Hf. specialize (Hfrozen Hf). specialize (Hsame Hf).
      unfold x. rewrite Hsame. lra.
Qed.

Lemma grant_accounted s r rest :
  acc s -> JS.ge (tokens (bucket s)) (JS.Num 1) = true ->
  acc (call_resolve r rest (take_token s)).
Proof.
  intros (Hc & Hr & Hn & Hl & t & Ht & HtC & Hmono & Hfrozen) Hge.
  rewrite Ht in Hge. cbn in Hge. apply Qle_bool_iff in Hge.
  unfold accounted, last_reading in *.
  pose proof (granted_call_resolve r rest (take_token s)) as Hg.
  change (granted (take_token s)) with (granted s) in Hg.
  cbn -[granted] in *. rewrite Ht. cbn -[granted].
  acc_intro (t + - (1))%Q; auto; try lra.
  - intros Hm. destruct (Hmono Hm). split; lra.
  - intros Hf. specialize (Hfrozen Hf). lra.
Qed.

Lemma step_accounted s o : acc s -> acc (step Date_now s o).
Proof.
  apply (step_rule Date_now acc acc); auto.
  - intros s' H _. now apply _refill_accounted.
  - intros s' r rest H _ Hge. now apply grant_accounted.
Qed.

Lemma steps_accounted ops s : acc s -> acc (steps Date_now ops s).
Proof.
  intros Hs. induction ops as [|o ops IH] using rev_ind; [exact Hs|].
  rewrite steps_snoc. now apply step_accounted.
Qed.

End Accounting.

(** ** The request executor *)

(** Unfold one attempt of [_request] under [run]. *)
Ltac fold_deadline :=
  repeat match goal with
         | |- context [setTimeout_delay (timeout ?t)] =>
             change (setTimeout_delay (timeout t)) with (deadline t)
         end.

Ltac attempt :=
  rewrite _request_equation_1; unfold gate, admission, fetch_event;
  destruct (_bucket _); cbn [run settle app]; fold_deadline.

Section Request.

Context {rt : JS.Runtime}.

Lemma ltb_true a b : a < b -> (a <? b) = true.
Proof. intros. now apply Z.ltb_lt. Qed.

Lemma ltb_false a b : b <= a -> (a <? b) = false.
Proof. intros. now apply Z.ltb_ge. Qed.

(** Every attempt starts by passing the gate and issuing its fetch. *)
Lemma run_request_prefix this method path body n net :
  exists evs,
    fst (run (_request this method path body n) net) =
    admission this ++ fetch_event this method path body :: evs.
Proof.
  attempt; destruct net as [|tr net]; cbn [fst];
    try (eexists; reflexivity);
    destruct (run _ net) as [evs out]; eexists; reflexivity.
Qed.

Lemma run_fulfilled this method path body n after res net :
  after < deadline this ->
  Response.status res <> 429 ->
  run (_request this method path body n) (Responds after res :: net) =
  (admission this ++ [fetch_event this method path body],
   let data := parse_body (Response.text res) in
   if negb (Response.ok res) then Rejects (reject_status res path data)
   else Resolves data).
Proof.
  intros Hd Hs. apply Z.eqb_neq in Hs.
  attempt; rewrite (ltb_true _ _ Hd), Hs; cbn;
    destruct (Response.ok res); reflexivity.
Qed.

Lemma headers_get_cases res name :
  Response.headers_get res name = JS.VNull \/
  exists h, Response.headers_get res name = JS.VStr h.
Proof.
  unfold Response.headers_get. destruct (filter _ _); eauto.
Qed.

End Request.

Section Claims.

Context {rt : JS.Runtime}.

(** C1 (as amended).  On a 429 answer, while the attempt count is below
    [maxRetries] (3 unless configured), the executor sleeps
    [Number(header) * 1000] ms for a non-empty [Retry-After] header and
    1000 ms when the header is absent or empty, then runs the whole call
    again, admission gate included, with the attempt count incremented.
    Once the attempts are used up it rejects with a [RateLimitError] of
    status 429 whose [retryAfter] is the header value. *)
Theorem retry_on_429 this method path body n after res net :
  Response.status res = 429 ->
  after < deadline this ->
  let header := Response.headers_get res "Retry-After" in
  (n < maxRetries this ->
   let wait :=
     match header with
     | JS.VStr (String c s) =>
         JS.mul (JS.StringToNumber (String c s)) (JS.Num 1000)
     | _ => JS.Num 1000
     end in
   exists evs,
     fst (run (_request this method path body (n + 1)) net) =
       admission this ++ fetch_event this method path body :: evs /\
     run (_request this method path body n) (Responds after res :: net) =
       (admission this ++ fetch_event this method path body :: Slept wait ::
        admission this ++ fetch_event this method path body :: evs,
        snd (run (_request this method path body (n + 1)) net))) /\
  (maxRetries this <= n ->
   exists e,
     run (_request this method path body n) (Responds after res :: net) =
       (admission this ++ [fetch_event this method path body], Rejects e) /\
     class e = RateLimitError_class /\
     status e = Some 429 /\
     message e = "Rate limit exceeded" /\
     retryAfter e = Some header) /\
  (forall o now api,
     OxfordAPI_constructor o now = Normal api ->
     opt_maxRetries o = None -> maxRetries api = 3).
Proof.
  intros Hs Hd header. apply Z.eqb_eq in Hs. apply ltb_true in Hd.
  split; [|split].
  - intros Hn wait.
    destruct (run_request_prefix this method path body (n + 1) net) as [evs Hevs].
    exists evs. split; [exact Hevs|].
    assert (Hwait :
      JS.mul (JS.Number (JS.or header (JS.VNum (JS.Num 1)))) (JS.Num 1000) = wait).
    { unfold wait, header.
      destruct (headers_get_cases res "Retry-After") as [H|[h H]]; rewrite H;
        [reflexivity | destruct h; reflexivity]. }
    destruct (run (_request this method path body (n + 1)) net) as [evs' out] eqn:Hrun.
    cbn [fst snd] in *. subst evs'.
    rewrite (_request_equation_1 this method path body n).
    unfold gate. unfold admission at 1.
    destruct (_bucket this); cbn [run settle app]; fold_deadline;
      rewrite Hd, Hs;
      (destruct (Z_lt_dec n (maxRetries this)); [|lia]);
      cbn [run]; fold header; rewrite Hwait, Hrun; reflexivity.
  - intros Hn. eexists. split.
    + attempt; rewrite Hd, Hs;
        (destruct (Z_lt_dec n (maxRetries _)); [lia|]); reflexivity.
    + fold header. cbn. repeat split. unfold header.
      destruct (headers_get_cases res "Retry-After") as [H|[h H]]; rewrite H;
        reflexivity.
  - intros o now api Hnew Hopt. unfold OxfordAPI_constructor in Hnew.
    destruct (negb _); [discriminate|]. injection Hnew as <-. cbn.
    rewrite Hopt. reflexivity.
Qed.

(** C2 (as amended).  A 503 answer is rejected with a
    [ServerUnavailableError] of status 503.  Its message is the body's
    [message] field when that is truthy, else the status text of the
    response when that is not empty, else the default text. *)
Theorem unavailable_message this method path body n after res net :
  Response.status res = 503 ->
  after < deadline this ->
  let msg := JS.get (parse_body (Response.text res)) "message" in
  exists e,
    run (_request this method path body n) (Responds after res :: net) =
      (admission this ++ [fetch_event this method path body], Rejects e) /\
    class e = ServerUnavailableError_class /\
    status e = Some 503 /\
    message e =
      (if JS.truthy msg then JS.ToString msg
       else if JS.str_nonempty (Response.statusText res)
            then Response.statusText res
            else "Server data temporarily unavailable").
Proof.
  intros Hs Hd msg.
  rewrite run_fulfilled by (auto; lia).
  unfold Response.ok, reject_status. rewrite Hs. cbn [Z.leb Z.compare Pos.compare Pos.compare_cont andb negb].
  eexists. split; [reflexivity|]. cbn [class status message ServerUnavailableError OxfordAPIError].
  repeat split. fold msg. unfold JS.or.
  destruct (JS.truthy msg) eqn:Hm.
  - rewrite Hm. destruct msg; try reflexivity; discriminate.
  - cbn [JS.truthy].
    destruct (JS.str_nonempty (Response.statusText res)); reflexivity.
Qed.


(** C7.  A 2xx answer resolves the call: with [null] for an empty body,
    with the parsed value for a body that is valid JSON, and with
    [{message: text}] for a non-empty body that is not. *)
Theorem success_body this method path body n after res net :
  Response.ok res = true ->
  after < deadline this ->
  exists data,
    run (_request this method path body n) (Responds after res :: net) =
      (admission this ++ [fetch_event this method path body], Resolves data) /\
    (Response.text res = EmptyString -> data = JS.VNull) /\
    (forall v, Response.text res <> EmptyString ->
               JS.JSON_parse (Response.text res) = Some v -> data = v) /\
    (Response.text res <> EmptyString ->
     JS.JSON_parse (Response.text res) = None ->
     data = JS.VObj [("message", JS.VStr (Response.text res))]).
Proof.
  intros Hok Hd.
  assert (Hs : Response.status res <> 429).
  { unfold Response.ok in Hok. apply andb_prop in Hok as [_ H]. lia. }
  rewrite run_fulfilled by assumption. rewrite Hok. cbn [negb].
  eexists. split; [reflexivity|]. unfold parse_body.
  destruct (Response.text res) as [|c s]; cbn [JS.str_nonempty].
  - repeat split; congruence.
  - split; [discriminate|]. split.
    + intros v _ ->. reflexivity.
    + intros _ ->. reflexivity.
Qed.

(** C8.  [executeCommand] with an argument that is not a non-empty
    string throws a [TypeError] at once: the call passes no suspension
    point, so it neither consults the admission gate nor issues a fetch. *)
Theorem command_validated_first this command net :
  ~ nonempty_string command ->
  executeCommand this command =
    Throw (TypeError (JS.VStr "[oxfd.js] command must be a non-empty string")) /\
  exists e,
    run (executeCommand this command) net = ([], Rejects e) /\
    class e = TypeError_class /\
    message e = "[oxfd.js] command must be a non-empty string".
Proof.
  intros Hbad.
  assert (Hthrow : executeCommand this command =
    Throw (TypeError (JS.VStr "[oxfd.js] command must be a non-empty string"))).
  { unfold executeCommand.
    destruct command as [| | | |s| |]; try reflexivity.
    - destruct b; reflexivity.
    - destruct n as [q| |]; cbn; try reflexivity. destruct (JS.Qzero q); reflexivity.
    - destruct s as [|c s]; [reflexivity|]. exfalso. apply Hbad.
      exists c, s. reflexivity. }
  split; [exact Hthrow|]. rewrite Hthrow. eexists. repeat split.
Qed.

(** C9.  A 403 answer, whatever its body, is rejected with an
    [AuthError]: status 403, the fixed message, [details] null and no
    [retryAfter]. *)
Theorem forbidden_is_auth_error this method path body n after res net :
  Response.status res = 403 ->
  after < deadline this ->
  run (_request this method path body n) (Responds after res :: net) =
    (admission this ++ [fetch_event this method path body], Rejects AuthError) /\
  class AuthError = AuthError_class /\
  status AuthError = Some 403 /\
  message AuthError = "Invalid API key or unauthorized access" /\
  details AuthError = Some JS.VNull /\
  retryAfter AuthError = None.
Proof.
  intros Hs Hd. split; [|repeat split].
  rewrite run_fulfilled by (auto; lia).
  unfold Response.ok, reject_status. rewrite Hs. reflexivity.
Qed.

(** C10.  Every method of a grouped manager is the flat method of the
    client the manager was built from: same suspension points, same
    errors, same result. *)
Theorem managers_forward this :
  Servers.getServer (servers this) = getServer this /\
  Servers.getPlayers (servers this) = getPlayers this /\
  Servers.getQueue (servers this) = getQueue this /\
  Servers.getBans (servers this) = getBans this /\
  Servers.getVehicles (servers this) = getVehicles this /\
  Servers.getRobberies (servers this) = getRobberies this /\
  Logs.getKillLogs (logs this) = getKillLogs this /\
  Logs.getCommandLogs (logs this) = getCommandLogs this /\
  Logs.getModCalls (logs this) = getModCalls this /\
  Logs.getRadioCalls (logs this) = getRadioCalls this /\
  Logs.getJoinLogs (logs this) = getJoinLogs this /\
  (forall command,
     Commands.execute (commands this) command = executeCommand this command) /\
  (forall command net,
     run (Commands.execute (commands this) command) net =
     run (executeCommand this command) net).
Proof. repeat split. Qed.

End Claims.

(** ** Bursts *)

Section Burst.

Variable Date_now : nat -> Z.
Variables (C R : Q) (n0 : nat).
Hypothesis C_ge_1 : (1 <= C)%Q.
Hypothesis R_pos : (0 < R)%Q.
Hypothesis clock : monotone Date_now n0.

Local Abbreviation acc := (accounted Date_now C R n0).

(** The reading the next [_refill] will take. *)
Local Abbreviation next s := (inject_Z (Date_now (reads s))).








End Burst.

(** ** The token bucket: claims *)

(** C3 (as amended).  For a bucket of capacity [C >= 1] and rate [R > 0]
    and every sequence of [acquire] calls and timer firings, after each
    operation and after a further [_refill] the token count is a finite
    number at most [C], whatever the clock shows; it is at least 0 when
    the clock never steps back. *)
Theorem tokens_in_range (Date_now : nat -> Z) (C R : Q) (n0 : nat) (ops : list Op) :
  (1 <= C)%Q -> (0 < R)%Q ->
  let s := steps Date_now ops (fresh Date_now (JS.Num C) (JS.Num R) n0) in
  forall s', s' = s \/ s' = _refill Date_now s ->
  exists t,
    tokens (bucket s') = JS.Num t /\
    (t <= C)%Q /\
    (monotone Date_now n0 -> (0 <= t)%Q).
Proof.
  intros HC HR s s' Hs'.
  assert (Hacc : accounted Date_now C R n0 s).
  { apply steps_accounted; [lra | lra |]. apply fresh_accounted; lra. }
  assert (Hacc' : accounted Date_now C R n0 s').
  { destruct Hs' as [-> | ->]; [exact Hacc|].
    apply _refill_accounted; [lra | lra | exact Hacc]. }
  destruct Hacc' as (_ & _ & _ & _ & t & Ht & HtC & Hmono & _).
  exists t. split; [exact Ht|]. split; [exact HtC|].
  intros Hm. apply (Hmono Hm).
Qed.

(** C4.  For every interleaving of [acquire] calls and timer firings on
    one bucket: callers are resumed in arrival order; between operations
    either one drain is suspended on exactly one timer or nothing is
    queued and no timer is pending; an [acquire] that meets a drain in
    progress only appends its caller; every grant takes exactly one token
    (with the clock standing still the count is the capacity minus the
    number of grants); and never more callers are resumed than tokens
    were ever in the bucket. *)
Theorem fifo_single_drain (Date_now : nat -> Z) (C R : number) (n0 : nat)
  (ops : list Op) :
  let s := steps Date_now ops (fresh Date_now C R n0) in
  resolved s ++ queue (bucket s) = arrivals ops /\
  settled s /\
  (forall r, processing (bucket s) = true ->
     acquire Date_now r s =
     with_bucket (fun b => set_queue (queue b ++ [r]) b) s) /\
  (forall c rate, C = JS.Num c -> R = JS.Num rate ->
     (0 <= c)%Q -> (0 <= rate)%Q -> frozen Date_now n0 ->
     exists t, tokens (bucket s) = JS.Num t /\ (t == c - granted s)%Q) /\
  (forall c rate, C = JS.Num c -> R = JS.Num rate ->
     (0 <= c)%Q -> (0 <= rate)%Q -> monotone Date_now n0 ->
     (granted s <=
      c + rate * (last_reading Date_now s - inject_Z (Date_now n0)))%Q).
Proof.
  intros s. split; [|split; [|split; [|split]]].
  - unfold s. rewrite steps_fifo. reflexivity.
  - apply steps_settled, fresh_settled.
  - intros r Hp. unfold acquire, _process. cbn [with_bucket bucket set_queue processing].
    rewrite Hp. reflexivity.
  - intros c rate -> -> Hc Hr Hf.
    destruct (steps_accounted Date_now c rate n0 Hc Hr ops _
                (fresh_accounted Date_now c rate n0 Hc))
      as (_ & _ & _ & _ & t & Ht & _ & _ & Hfrozen).
    exists t. split; [exact Ht|]. specialize (Hfrozen Hf). fold s in Hfrozen. lra.
  - intros c rate -> -> Hc Hr Hm.
    destruct (steps_accounted Date_now c rate n0 Hc Hr ops _
                (fresh_accounted Date_now c rate n0 Hc))
      as (_ & _ & _ & _ & t & Ht & _ & Hmono & _).
    destruct (Hmono Hm) as [H0 Hled]. fold s in Hled. lra.
Qed.

Section Modes.

Context {rt : JS.Runtime}.


End Modes.

(** ** Counterexamples to the claims as first stated *)

(** C1 as stated fails: a [Retry-After] header that does not parse as a
    number (here an HTTP date) does not make the executor sleep one
    second; the delay handed to [setTimeout] is NaN. *)
Lemma retry_after_unparseable_counterexample :
  ~ (forall (rt : JS.Runtime) this method path body n after res net h,
       Response.status res = 429 ->
       after < deadline this ->
       n < maxRetries this ->
       Response.headers_get res "Retry-After" = JS.VStr h ->
       JS.StringToNumber h = JS.NaN ->
       exists evs,
         fst (run (_request this method path body n) (Responds after res :: net)) =
         admission this ++ fetch_event this method path body ::
         Slept (JS.Num 1000) :: evs).
Proof.
  intros H.
  destruct (H Node.runtime (Demo.client (JS.VStr "none") None)
              "GET" "/server" JS.VNull 0 20 (Demo.limited Demo.http_date) []
              Demo.http_date) as [evs Hevs]; try reflexivity.
  vm_compute in Hevs. discriminate.
Qed.

(** C2 as stated fails: a 503 answer with an empty body and the status
    text of HTTP/1.1 is rejected with that status text as message, not
    with the default text. *)
Lemma unavailable_default_counterexample :
  ~ (forall (rt : JS.Runtime) this method path body n after res net,
       Response.status res = 503 ->
       after < deadline this ->
       JS.get (parse_body (Response.text res)) "message" = JS.VUndefined ->
       exists e,
         snd (run (_request this method path body n) (Responds after res :: net)) =
           Rejects e /\
         message e = "Server data temporarily unavailable").
Proof.
  intros H.
  destruct (H Node.runtime (Demo.client (JS.VStr "none") None)
              "GET" "/server" JS.VNull 0 20
              (Demo.answer 503 "Service Unavailable" EmptyString) [])
    as (e & He & Hmsg); try reflexivity.
  vm_compute in He. injection He as <-. discriminate.
Qed.

(** C3 as stated fails: when the clock is set back between two
    acquisitions the refill subtracts tokens and the count drops below 0. *)
Lemma tokens_negative_counterexample :
  ~ (forall (Date_now : nat -> Z) (C R : Q) (n0 : nat) (ops : list Op),
       (1 <= C)%Q -> (0 < R)%Q ->
       exists t,
         tokens (bucket (steps Date_now ops
                           (fresh Date_now (JS.Num C) (JS.Num R) n0))) = JS.Num t /\
         (0 <= t)%Q /\ (t <= C)%Q).
Proof.
  intros H.
  destruct (H Demo.set_back 1%Q (1 # 1000) 0%nat [OpAcquire 1%nat; OpAcquire 2%nat])
    as (t & Ht & H0 & _); try reflexivity.
  - discriminate.
  - vm_compute in Ht. injection Ht as <-. apply H0. reflexivity.
Qed.


(** ** The theorems at concrete inputs *)

Section Concrete.

#[local] Existing Instance Node.runtime.

Lemma steady_monotone n0 : monotone Demo.steady n0.
Proof. unfold monotone, Demo.steady. intros. lia. Qed.

Lemma still_monotone n0 : monotone Demo.still n0.
Proof. unfold monotone, Demo.still. intros. lia. Qed.

Lemma still_frozen n0 : frozen Demo.still n0.
Proof. unfold frozen, Demo.still. reflexivity. Qed.

(** One retry after 2000 ms for [Retry-After: 2], then the answer. *)
Lemma retry_on_429_witness :
  Response.status (Demo.limited "2") = 429 /\
  20 < deadline Demo.auto1 /\
  0 < maxRetries Demo.auto1 /\
  exists evs,
    run (_request Demo.auto1 "GET" "/server" JS.VNull 0)
        [Responds 20 (Demo.limited "2"); Responds 30 Demo.pair_answer] =
    (admission Demo.auto1 ++ fetch_event Demo.auto1 "GET" "/server" JS.VNull ::
     Slept (JS.Num 2000) ::
     admission Demo.auto1 ++ fetch_event Demo.auto1 "GET" "/server" JS.VNull :: evs,
     Resolves (JS.VArr [JS.VNum (JS.Num 1); JS.VNum (JS.Num 2)])).
Proof.
  pose (api := Demo.auto1). pose (res := Demo.limited "2").
  pose (net := [Responds 30 Demo.pair_answer]).
  assert (H1 : Response.status res = 429) by reflexivity.
  assert (H2 : 20 < deadline api) by reflexivity.
  assert (H3 : 0 < maxRetries api) by reflexivity.
  split; [exact H1|]. split; [exact H2|]. split; [exact H3|].
  destruct (proj1 (retry_on_429 (rt := Node.runtime) api "GET" "/server"
                     JS.VNull 0 20 res net H1 H2) H3) as (evs & _ & Hrun).
  exists evs. exact Hrun.
Defined.

(** A 503 answer carrying a message, and one carrying nothing at all. *)
Lemma unavailable_message_witness :
  Response.status Demo.maintenance = 503 /\
  20 < deadline Demo.ungated /\
  exists e,
    run (_request Demo.ungated "GET" "/server" JS.VNull 0)
        [Responds 20 Demo.maintenance] =
      (admission Demo.ungated ++ [fetch_event Demo.ungated "GET" "/server" JS.VNull],
       Rejects e) /\
    class e = ServerUnavailableError_class /\
    status e = Some 503 /\
    message e = "maintenance".
Proof.
  pose (api := Demo.ungated). pose (res := Demo.maintenance).
  assert (H1 : Response.status res = 503) by reflexivity.
  assert (H2 : 20 < deadline api) by reflexivity.
  split; [exact H1|]. split; [exact H2|].
  exact (unavailable_message (rt := Node.runtime) api "GET" "/server"
           JS.VNull 0 20 res [] H1 H2).
Defined.

(** Twelve operations under a steadily advancing clock. *)
Lemma tokens_in_range_witness :
  (1 <= 10)%Q /\ (0 < 29 # 1000)%Q /\ monotone Demo.steady 0 /\
  exists t,
    tokens (bucket (steps Demo.steady Demo.twelve_ops Demo.auto_loop)) = JS.Num t /\
    (t <= 10)%Q /\ (0 <= t)%Q.
Proof.
  pose (ops := Demo.twelve_ops).
  pose (s := steps Demo.steady ops Demo.auto_loop).
  assert (H1 : (1 <= 10)%Q) by (unfold Qle; cbn; lia).
  assert (H2 : (0 < 29 # 1000)%Q) by reflexivity.
  split; [exact H1|]. split; [exact H2|]. split; [exact (steady_monotone 0)|].
  destruct (tokens_in_range Demo.steady 10 (29 # 1000) 0 ops H1 H2 s (or_introl eq_refl))
    as (t & Ht & HC & H0).
  exists t. split; [exact Ht|]. split; [exact HC|].
  exact (H0 (steady_monotone 0)).
Defined.

(** Three callers on a one-token bucket while the clock stands still:
    one is resumed, two wait on the single timer. *)
Lemma fifo_single_drain_witness :
  (0 <= 1)%Q /\ (0 <= 1 # 2000)%Q /\ frozen Demo.still 0 /\ monotone Demo.still 0 /\
  resolved (steps Demo.still Demo.three_callers Demo.single_loop) ++
  queue (bucket (steps Demo.still Demo.three_callers Demo.single_loop)) =
    [7%nat; 8%nat; 9%nat] /\
  settled (steps Demo.still Demo.three_callers Demo.single_loop) /\
  (exists t,
     tokens (bucket (steps Demo.still Demo.three_callers Demo.single_loop)) = JS.Num t /\
     (t == 1 - granted (steps Demo.still Demo.three_callers Demo.single_loop))%Q) /\
  (granted (steps Demo.still Demo.three_callers Demo.single_loop) <=
   1 + (1 # 2000) *
       (last_reading Demo.still (steps Demo.still Demo.three_callers Demo.single_loop)
        - inject_Z (Demo.still 0)))%Q.
Proof.
  pose (ops := Demo.three_callers).
  assert (H1 : (0 <= 1)%Q) by (unfold Qle; cbn; lia).
  assert (H2 : (0 <= 1 # 2000)%Q) by (unfold Qle; cbn; lia).
  destruct (fifo_single_drain Demo.still (JS.Num 1) (JS.Num (1 # 2000)) 0 ops)
    as (Hfifo & Hsettled & _ & Hexact & Hbound).
  split; [exact H1|]. split; [exact H2|].
  split; [exact (still_frozen 0)|]. split; [exact (still_monotone 0)|].
  split; [exact Hfifo|]. split; [exact Hsettled|].
  split.
  - exact (Hexact 1%Q (1 # 2000) eq_refl eq_refl H1 H2 (still_frozen 0)).
  - exact (Hbound 1%Q (1 # 2000) eq_refl eq_refl H1 H2 (still_monotone 0)).
Defined.



(** A 200 answer whose body is the JSON text of a two-element array. *)
Lemma success_body_witness :
  Response.ok Demo.pair_answer = true /\
  20 < deadline Demo.auto /\
  Response.text Demo.pair_answer <> EmptyString /\
  JS.JSON_parse (Response.text Demo.pair_answer) =
    Some (JS.VArr [JS.VNum (JS.Num 1); JS.VNum (JS.Num 2)]) /\
  exists data,
    run (getServer Demo.auto) [Responds 20 Demo.pair_answer] =
      (admission Demo.auto ++ [fetch_event Demo.auto "GET" "/server" JS.VNull],
       Resolves data) /\
    data = JS.VArr [JS.VNum (JS.Num 1); JS.VNum (JS.Num 2)].
Proof.
  pose (api := Demo.auto). pose (res := Demo.pair_answer).
  assert (H1 : Response.ok res = true) by reflexivity.
  assert (H2 : 20 < deadline api) by reflexivity.
  assert (H3 : Response.text res <> EmptyString) by discriminate.
  assert (H4 : JS.JSON_parse (Response.text res) =
               Some (JS.VArr [JS.VNum (JS.Num 1); JS.VNum (JS.Num 2)]))
    by reflexivity.
  split; [exact H1|]. split; [exact H2|]. split; [exact H3|]. split; [exact H4|].
  destruct (success_body (rt := Node.runtime) api "GET" "/server" JS.VNull 0 20
              res [] H1 H2) as (data & Hrun & _ & Hvalid & _).
  exists data. split; [exact Hrun | exact (Hvalid _ H3 H4)].
Defined.

(** The empty string and a number as command. *)
Lemma command_validated_first_witness :
  ~ nonempty_string (JS.VStr EmptyString) /\
  ~ nonempty_string (JS.VNum (JS.Num 7)) /\
  (exists e,
     run (executeCommand Demo.auto (JS.VStr EmptyString))
         [Responds 20 Demo.pair_answer] = ([], Rejects e) /\
     class e = TypeError_class /\
     message e = "[oxfd.js] command must be a non-empty string") /\
  (exists e,
     run (executeCommand Demo.auto (JS.VNum (JS.Num 7)))
         [Responds 20 Demo.pair_answer] = ([], Rejects e) /\
     class e = TypeError_class /\
     message e = "[oxfd.js] command must be a non-empty string").
Proof.
  pose (api := Demo.auto).
  assert (H1 : ~ nonempty_string (JS.VStr EmptyString)).
  { intros (c & s & H). discriminate H. }
  assert (H2 : ~ nonempty_string (JS.VNum (JS.Num 7))).
  { intros (c & s & H). discriminate H. }
  split; [exact H1|]. split; [exact H2|].
  split.
  - exact (proj2 (command_validated_first (rt := Node.runtime) api _ _ H1)).
  - exact (proj2 (command_validated_first (rt := Node.runtime) api _ _ H2)).
Defined.

(** A 403 answer whose body carries a message and an error code. *)
Lemma forbidden_is_auth_error_witness :
  Response.status Demo.forbidden = 403 /\
  20 < deadline Demo.auto /\
  run (getServer Demo.auto) [Responds 20 Demo.forbidden] =
    (admission Demo.auto ++ [fetch_event Demo.auto "GET" "/server" JS.VNull],
     Rejects AuthError).
Proof.
  pose (api := Demo.auto). pose (res := Demo.forbidden).
  assert (H1 : Response.status res = 403) by reflexivity.
  assert (H2 : 20 < deadline api) by reflexivity.
  split; [exact H1|]. split; [exact H2|].
  exact (proj1 (forbidden_is_auth_error (rt := Node.runtime) api "GET" "/server"
                  JS.VNull 0 20 res [] H1 H2)).
Defined.

End Concrete.

(** ** Further properties of the request executor *)

Section MoreRequest.

Context {rt : JS.Runtime}.


(** One attempt of [_request], by the way its fetch settles. *)
Lemma run_attempt this method path body n t net :
  run (_request this method path body n) (t :: net) =
  match settle (timeout this) t with
  | Rejected err =>
      (admission this ++ [fetch_event this method path body],
       Rejects
         (if String.eqb (name err) "AbortError"
          then OxfordAPIError (JS.VStr "Request timed out") 408 JS.VUndefined
          else OxfordAPIError (JS.VStr ("Network error: " ++ message err)) 0
                              JS.VUndefined))
  | Fulfilled res reading =>
      if Response.status res =? 429 then
        if n <? maxRetries this then
          let (evs, out) := run (_request this method path body (n + 1)) net in
          (admission this ++ fetch_event this method path body ::
           Slept (retry_delay res) :: evs, out)
        else
          (admission this ++ [fetch_event this method path body],
           Rejects (RateLimitError (JS.VStr "Rate limit exceeded")
                      (Response.headers_get res "Retry-After")))
      else
        (admission this ++ [fetch_event this method path body],
         match reading with
         | Completes =>
             if negb (Response.ok res)
             then Rejects (reject_status res path (parse_body (Response.text res)))
             else Resolves (parse_body (Response.text res))
         | Breaks err => Rejects err
         | Stalls => Stalled
         end)
  end.
Proof.
  rewrite (_request_equation_1 this method path body n).
  unfold gate, admission, fetch_event, retry_delay.
  destruct (_bucket this); cbn [run app];
    (destruct (settle (timeout this) t) as [res reading|err];
     [ destruct (Response.status res =? 429);
       [ destruct (Z_lt_dec n (maxRetries this)) as [Hlt|Hge];
         [ rewrite (ltb_true _ _ Hlt); cbn [run];
           destruct (run _ net); reflexivity
         | rewrite ltb_false by lia; reflexivity ]
       | cbn [run]; destruct reading;
         [ cbn zeta; destruct (negb (Response.ok res)); reflexivity
         | reflexivity | reflexivity ] ]
     | destruct (String.eqb (name err) "AbortError"); reflexivity ]).
Qed.

Lemma run_unanswered this method path body n :
  run (_request this method path body n) [] =
  (admission this ++ [fetch_event this method path body], Pending).
Proof.
  rewrite (_request_equation_1 this method path body n).
  unfold gate, admission, fetch_event. destruct (_bucket this); reflexivity.
Qed.

(** Induction on the retries left. *)
Lemma retries_ind this (P : Z -> Prop) :
  (forall n, (n < maxRetries this -> P (n + 1)) -> P n) ->
  forall n, P n.
Proof.
  intros Hstep n.
  remember (retries_left this n) as m eqn:Hm.
  revert n Hm. induction m as [|m IH]; intros n Hm; apply Hstep; intros Hlt.
  - unfold retries_left in Hm. lia.
  - apply IH. unfold retries_left in *. lia.
Qed.

Lemma retries_left_succ this n :
  n < maxRetries this -> retries_left this n = S (retries_left this (n + 1)).
Proof. unfold retries_left. lia. Qed.

Lemma reject_status_status res path data :
  status (reject_status res path data) = Some (Response.status res).
Proof.
  unfold reject_status.
  destruct (Response.status res) as [|p|p]; try reflexivity.
  repeat (destruct p as [p|p|]; try reflexivity).
Qed.


End MoreRequest.

Section Traces.

Context {rt : JS.Runtime}.

Lemma count_attempts (f : Event -> bool) this method path body delays :
  List.length (filter f (attempts this method path body delays)) =
  (S (List.length delays) *
     List.length (filter f (admission this ++ [fetch_event this method path body]))
   + List.length (filter f (map Slept delays)))%nat.
Proof.
  induction delays as [|w ds IH]; cbn [attempts List.length map].
  - rewrite Nat.add_0_r. cbn. lia.
  - replace (admission this ++ fetch_event this method path body :: Slept w ::
             attempts this method path body ds)
      with ((admission this ++ [fetch_event this method path body]) ++ [Slept w] ++
            attempts this method path body ds)
      by (rewrite <- app_assoc; reflexivity).
    rewrite (filter_app f (admission this ++ [fetch_event this method path body])).
    rewrite length_app.
    set (X := List.length (filter f (admission this ++ _))) in *.
    cbn [app filter]. destruct (f (Slept w)); cbn [List.length]; rewrite IH; nia.
Qed.

Lemma count_sleeps (f : Event -> bool) delays :
  (forall w, f (Slept w) = false) ->
  List.length (filter f (map Slept delays)) = 0%nat.
Proof.
  intros Hf. induction delays as [|w ds IH]; [reflexivity|].
  cbn. rewrite Hf. exact IH.
Qed.

Lemma count_is_sleep delays :
  List.length (filter is_sleep (map Slept delays)) = List.length delays.
Proof.
  induction delays as [|w ds IH]; [reflexivity|]. cbn. now rewrite IH.
Qed.

Lemma In_attempts ev this method path body delays :
  In ev (attempts this method path body delays) ->
  ev = Acquired \/ ev = fetch_event this method path body \/ exists w, ev = Slept w.
Proof.
  induction delays as [|w ds IH]; cbn [attempts]; intros Hin.
  - apply in_app_or in Hin as [Hin | [<- | []]]; auto.
    unfold admission in Hin. destruct (_bucket this); cbn in Hin; intuition.
  - apply in_app_or in Hin as [Hin | [<- | [<- | Hin]]]; eauto.
    unfold admission in Hin. destruct (_bucket this); cbn in Hin; intuition.
Qed.

(** The calls of a run that is cut at the gate: whole rounds of one
    wait at the gate, one fetch and one sleep. *)
Lemma attempts_cut this method path body delays evs rest :
  evs ++ Acquired :: rest = attempts this method path body delays ->
  _bucket this <> None /\
  exists k,
    (k <= List.length delays)%nat /\
    List.length (filter is_fetch evs) = k /\
    List.length (filter is_sleep evs) = k /\
    List.length (filter is_acquire evs) = k.
Proof.
  revert evs. unfold fetch_event.
  induction delays as [|w ds IH]; intros evs; cbn [attempts];
    unfold admission, fetch_event; destruct (_bucket this) as [b|] eqn:Hb;
    cbn [app]; intros Hcut.
  - split; [discriminate|]. exists 0%nat.
    destruct evs as [|e1 [|e2 [|e3 evs]]]; try discriminate Hcut.
    cbn. auto.
  - destruct evs as [|e1 [|e2 evs]]; discriminate Hcut.
  - split; [discriminate|].
    destruct evs as [|e1 [|e2 [|e3 evs]]]; try discriminate Hcut.
    + exists 0%nat. cbn. repeat split; lia.
    + injection Hcut as -> -> -> Hcut.
      assert (Hcut' : evs ++ Acquired :: rest = attempts this method path body ds).
      { rewrite Hcut. destruct ds; cbn [attempts]; unfold admission, fetch_event;
          rewrite Hb; reflexivity. }
      destruct (IH evs Hcut') as (_ & k & Hk & Hf & Hs & Ha).
      exists (S k). cbn. rewrite Hf, Hs, Ha. repeat split; lia.
  - exfalso.
    destruct evs as [|e1 [|e2 evs]]; try discriminate Hcut.
    injection Hcut as -> -> Hcut.
    assert (Hcut' : evs ++ Acquired :: rest = attempts this method path body ds).
    { rewrite Hcut. destruct ds; cbn [attempts]; unfold admission, fetch_event;
        rewrite Hb; reflexivity. }
    destruct (IH evs Hcut') as (Hne & _). contradiction.
Qed.

(** The shape of every run: attempts separated by sleeps, one sleep per
    429 answer that was retried. *)
Lemma run_request_shape this method path body n net :
  exists delays,
    fst (run (_request this method path body n) net) =
      attempts this method path body delays /\
    (List.length delays <= retries_left this n)%nat /\
    (List.length delays <= List.length net)%nat.
Proof.
  revert net. pattern n. apply (retries_ind this). clear n.
  intros n IH net. destruct net as [|t net].
  - rewrite run_unanswered. exists []. cbn [fst snd attempts List.length].
    split; [reflexivity|]. split; lia.
  - rewrite run_attempt.
    assert (Hdone : forall (out : Outcome value),
      exists delays,
        fst (admission this ++ [fetch_event this method path body], out) =
          attempts this method path body delays /\
        (List.length delays <= retries_left this n)%nat /\
        (List.length delays <= List.length (t :: net))%nat).
    { intros out. exists []. cbn [fst snd attempts List.length].
      split; [reflexivity|]. split; lia. }
    destruct (settle (timeout this) t) as [res reading|err].
    + destruct (Response.status res =? 429).
      * destruct (n <? maxRetries this) eqn:Hlt.
        -- apply Z.ltb_lt in Hlt.
           destruct (IH Hlt net) as (ds & Hev & Hb & Hn).
           destruct (run (_request this method path body (n + 1)) net) as [evs out].
           cbn [fst snd] in *. exists (retry_delay res :: ds).
           rewrite (retries_left_succ this n Hlt). cbn [attempts List.length].
           rewrite Hev. split; [reflexivity|]. split; lia.
        -- apply Hdone.
      * apply Hdone.
    + apply Hdone.
Qed.

Lemma fetches_are_the_request this method path body n net ev :
  In ev (fst (run (_request this method path body n) net)) ->
  is_fetch ev = true ->
  ev = fetch_event this method path body.
Proof.
  intros Hin Hf.
  destruct (run_request_shape this method path body n net) as (ds & Hev & _).
  rewrite Hev in Hin.
  destruct (In_attempts _ _ _ _ _ _ Hin) as [-> | [-> | [w ->]]];
    [discriminate | reflexivity | discriminate].
Qed.


End Traces.

Section MoreClaims.

Context {rt : JS.Runtime}.

(** X3.  When every answer is a 429, the call makes exactly
    [maxRetries - attempt] retries and then rejects with a
    [RateLimitError] of status 429 whose [retryAfter] is the header of
    the last answer. *)
Theorem retries_exhausted this method path body n net :
  Forall (limits this) net ->
  List.length net = S (retries_left this n) ->
  exists delays e after res,
    run (_request this method path body n) net =
      (attempts this method path body delays, Rejects e) /\
    List.length delays = retries_left this n /\
    last net Silent = Responds after res /\
    class e = RateLimitError_class /\
    status e = Some 429 /\
    retryAfter e = Some (Response.headers_get res "Retry-After").
Proof.
  revert net. pattern n. apply (retries_ind this). clear n.
  intros n IH net Hall Hlen.
  destruct net as [|t net]; [discriminate|].
  inversion Hall as [|t' net' (after & res & -> & Hafter & H429) Hrest]; subst.
  rewrite run_attempt. cbn [settle]. fold_deadline.
  rewrite (ltb_true _ _ Hafter). apply Z.eqb_eq in H429. rewrite H429.
  destruct (n <? maxRetries this) eqn:Hlt.
  - apply Z.ltb_lt in Hlt.
    rewrite (retries_left_succ this n Hlt) in *. cbn [List.length] in Hlen.
    destruct (IH Hlt net Hrest) as (ds & e & a & r & Hrun & Hds & Hlast & He);
      [lia|].
    rewrite Hrun. exists (retry_delay res :: ds), e, a, r.
    split; [reflexivity|]. split; [cbn; lia|]. split; [|exact He].
    destruct net as [|t net]; [discriminate|]. exact Hlast.
  - apply Z.ltb_ge in Hlt.
    assert (H0 : retries_left this n = 0%nat) by (unfold retries_left; lia).
    rewrite H0 in *. cbn [List.length] in Hlen.
    destruct net as [|t net]; [|discriminate].
    exists [], (RateLimitError (JS.VStr "Rate limit exceeded")
                  (Response.headers_get res "Retry-After")), after, res.
    split; [reflexivity|]. split; [reflexivity|]. split; [reflexivity|].
    split; [reflexivity|]. split; [reflexivity|].
    cbn. destruct (headers_get_cases res "Retry-After") as [H|[h H]]; rewrite H;
      reflexivity.
Qed.

(** X5.  A non-2xx answer other than 429 is rejected with an error whose
    status is the status of the answer.  Apart from 403 and 503 the
    error is a plain [OxfordAPIError] whose [details] is the body's
    [error] field when truthy and null otherwise, and whose message is
    [Bad request: msg] for 400, [Not found: path] for 404,
    [Internal server error: msg] for 500 and [msg] for any other status,
    [msg] being the body's [message] field when truthy and the status
    text otherwise. *)
Theorem status_classification this method path body n after res net :
  Response.ok res = false ->
  Response.status res <> 429 ->
  after < deadline this ->
  let data := parse_body (Response.text res) in
  let msg := JS.or (JS.get data "message") (JS.VStr (Response.statusText res)) in
  let st := Response.status res in
  exists e,
    run (_request this method path body n) (Responds after res :: net) =
      (admission this ++ [fetch_event this method path body], Rejects e) /\
    status e = Some st /\
    (st <> 403 -> st <> 503 ->
     class e = OxfordAPIError_class /\
     details e = Some (JS.or (JS.get data "error") JS.VNull) /\
     message e =
       if st =? 400 then ("Bad request: " ++ JS.ToString msg)%string
       else if st =? 404 then ("Not found: " ++ path)%string
       else if st =? 500 then ("Internal server error: " ++ JS.ToString msg)%string
       else JS.ToString msg).
Proof.
  intros Hok H429 Hafter data msg st.
  rewrite run_fulfilled by assumption. rewrite Hok. cbn [negb].
  eexists. split; [reflexivity|]. split; [apply reject_status_status|].
  intros H403 H503. fold data. unfold reject_status. fold msg. fold st.
  assert (Hmsg : Error_message msg = JS.ToString msg).
  { unfold msg, JS.or. destruct (JS.truthy (JS.get data "message")) eqn:E.
    - destruct (JS.get data "message"); try reflexivity; discriminate.
    - reflexivity. }
  assert (Hdet : JS.or (JS.get data "error") JS.VNull <> JS.VUndefined).
  { unfold JS.or. destruct (JS.truthy (JS.get data "error")) eqn:E.
    - destruct (JS.get data "error"); discriminate.
    - discriminate. }
  clearbody msg data. revert H403 H503. clear H429 Hok.
  generalize st. clear st. intros st H403 H503.
  assert (Hleaf : forall z,
    (z =? 400) = false -> (z =? 404) = false -> (z =? 500) = false ->
    class (OxfordAPIError msg z (JS.or (JS.get data "error") JS.VNull)) =
      OxfordAPIError_class /\
    details (OxfordAPIError msg z (JS.or (JS.get data "error") JS.VNull)) =
      Some (JS.or (JS.get data "error") JS.VNull) /\
    message (OxfordAPIError msg z (JS.or (JS.get data "error") JS.VNull)) =
      if z =? 400 then ("Bad request: " ++ JS.ToString msg)%string
      else if z =? 404 then ("Not found: " ++ path)%string
      else if z =? 500 then ("Internal server error: " ++ JS.ToString msg)%string
      else JS.ToString msg).
  { intros z -> -> ->. cbn [class details message OxfordAPIError].
    split; [reflexivity|]. split; [|exact Hmsg].
    destruct (JS.or (JS.get data "error") JS.VNull); try reflexivity.
    contradiction. }
  destruct st as [|p|p]; try (apply Hleaf; reflexivity).
  repeat (destruct p as [p|p|];
          try (apply Hleaf; reflexivity);
          try (exfalso; apply H403; reflexivity);
          try (exfalso; apply H503; reflexivity);
          try (cbn [class details message OxfordAPIError Z.eqb Pos.eqb];
               split; [reflexivity|]; split; [|reflexivity];
               destruct (JS.or (JS.get data "error") JS.VNull);
               try reflexivity; contradiction)).
Qed.

End MoreClaims.

Section MoreClient.

Context {rt : JS.Runtime}.

(** X6.  The constructor throws [serverKey is required] exactly when the
    key is missing or falsy.  Otherwise every fetch of every call of the
    client goes to [https://api.oxfd.re/v1] followed by the path, with
    the key in the [server-key] header, the JSON content headers, the
    configured deadline (10000 ms by default), and a body only when one
    was given. *)
Theorem requests_carry_key o now :
  (JS.truthy (opt_serverKey o) = false ->
   OxfordAPI_constructor o now =
     Abrupt (Error (JS.VStr "[oxfd.js] serverKey is required"))) /\
  (JS.truthy (opt_serverKey o) = true ->
   exists api,
     OxfordAPI_constructor o now = Normal api /\
     forall method path body n net ev,
       In ev (fst (run (_request api method path body n) net)) ->
       is_fetch ev = true ->
       ev = Fetched ("https://api.oxfd.re/v1" ++ path)
              {| fo_method := method;
                 fo_headers :=
                   [("server-key", JS.ToString (opt_serverKey o));
                    ("Content-Type", "application/json");
                    ("Accept", "application/json")];
                 fo_body :=
                   match body with
                   | JS.VUndefined | JS.VNull => None
                   | _ => Some (JS.JSON_stringify body)
                   end |}
              (default (opt_timeout o) 10000)).
Proof.
  unfold OxfordAPI_constructor. split; intros Hkey; rewrite Hkey; cbn [negb].
  - reflexivity.
  - eexists. split; [reflexivity|].
    intros method path body n net ev Hin Hf.
    apply fetches_are_the_request in Hin; [|exact Hf]. subst ev. reflexivity.
Qed.

(** X7.  [executeCommand] throws without suspending exactly when its
    argument is not a non-empty string.  A non-empty string is posted to
    [/server/command] with the JSON text of [{command}] as body, on
    every attempt. *)
Theorem command_dispatch this command net :
  ((exists e, executeCommand this command = Throw e) <->
   ~ nonempty_string command) /\
  (nonempty_string command ->
   forall ev,
     In ev (fst (run (executeCommand this command) net)) ->
     is_fetch ev = true ->
     ev = Fetched (baseUrl this ++ "/server/command")
            {| fo_method := "POST";
               fo_headers :=
                 [("server-key", JS.ToString (serverKey this));
                  ("Content-Type", "application/json");
                  ("Accept", "application/json")];
               fo_body :=
                 Some (JS.JSON_stringify (JS.VObj [("command", command)])) |}
            (timeout this)).
Proof.
  assert (Hgood : nonempty_string command ->
            executeCommand this command =
            _request this "POST" "/server/command"
                     (JS.VObj [("command", command)]) 0).
  { intros (c & s & ->). reflexivity. }
  split; [split|].
  - intros [e He] Hne. rewrite (Hgood Hne), _request_equation_1 in He.
    unfold gate in He. destruct (_bucket this); discriminate.
  - intros Hbad. eexists.
    unfold executeCommand.
    destruct command as [| |b|k|s| |]; try reflexivity.
    + destruct b; reflexivity.
    + destruct k as [q| |]; cbn; try reflexivity. destruct (JS.Qzero q); reflexivity.
    + destruct s as [|c s]; [reflexivity|]. exfalso. apply Hbad.
      exists c, s. reflexivity.
  - intros Hne. rewrite (Hgood Hne).
    intros ev Hin Hf.
    apply fetches_are_the_request in Hin; [|exact Hf]. subst ev.
    destruct Hne as (c & s & ->). reflexivity.
Qed.

End MoreClient.

(** ** Further properties of the token bucket *)

Section MoreBucket.

Variable Date_now : nat -> Z.

Lemma step_work_conserving s o :
  settled s /\ work_conserving s ->
  settled (step Date_now s o) /\ work_conserving (step Date_now s o).
Proof.
  apply (step_rule Date_now
           (fun s => settled s /\ work_conserving s) draining);
    unfold settled, draining, work_conserving; cbn.
  - intros s' [_ Ht] Hq. split; [right; auto|]. intros H. contradiction.
  - intros s' H _. exact H.
  - intros s' r rest H _ _. exact H.
  - intros s' [Hp Ht] Hq Hge. split; [|auto].
    left. rewrite Ht. cbn. eauto.
  - intros s' r [[[Hp [Ht Hq]]|[Hp _]] Hwc] Hp'; [|congruence]. split.
    + left. repeat split; auto. now destruct (queue (bucket s')).
    + intros _. apply Hwc. exact Hq.
  - intros s' r [[[Hp _]|[_ [Ht _]]] _] Hp'; [congruence|]. auto.
  - intros s' w later [[[Hp [[w' Ht] _]]|[_ [Ht _]]] _] Ht'; [|congruence].
    split; [assumption|congruence].
Qed.

(** X8.  After every operation, a caller is still queued only if less
    than one token is in the bucket: the drain never stops while it
    could serve the head of the queue. *)
Theorem never_idle_with_tokens (C R : number) (n0 : nat) (ops : list Op) :
  queue (bucket (steps Date_now ops (fresh Date_now C R n0))) <> [] ->
  JS.ge (tokens (bucket (steps Date_now ops (fresh Date_now C R n0)))) (JS.Num 1)
    = false.
Proof.
  assert (H : settled (steps Date_now ops (fresh Date_now C R n0)) /\
              work_conserving (steps Date_now ops (fresh Date_now C R n0))).
  { induction ops as [|o ops IH] using rev_ind.
    - split; [apply fresh_settled|]. intros H. exfalso. apply H. reflexivity.
    - rewrite steps_snoc. now apply step_work_conserving. }
  apply H.
Qed.

Lemma mul_NaN x : JS.mul x JS.NaN = JS.NaN.
Proof. destruct x; reflexivity. Qed.

Lemma add_NaN x : JS.add x JS.NaN = JS.NaN.
Proof. destruct x; reflexivity. Qed.

Lemma min_NaN x : JS.min x JS.NaN = JS.NaN.
Proof. destruct x; reflexivity. Qed.

Lemma _refill_poisoned s :
  refillRate (bucket s) = JS.NaN ->
  tokens (bucket (_refill Date_now s)) = JS.NaN.
Proof.
  intros Hr. unfold _refill. cbn [read_clock bucket with_bucket tokens
    set_tokens set_lastRefill refillRate capacity lastRefill].
  rewrite Hr, mul_NaN, add_NaN, min_NaN. reflexivity.
Qed.

Lemma tick_poisoned s : poisoned s -> poisoned (tick Date_now s).
Proof.
  intros [Hr Hres]. destruct (queue (bucket s)) as [|r rest] eqn:Hq.
  - rewrite tick_nil by exact Hq. split; assumption.
  - rewrite (tick_cons Date_now s r rest Hq). cbn zeta.
    rewrite (_refill_poisoned s Hr). cbn [JS.ge]. split; assumption.
Qed.

Lemma step_poisoned s o : poisoned s -> poisoned (step Date_now s o).
Proof.
  intros Hp. destruct o as [r|]; cbn [step].
  - unfold acquire, _process. cbn [with_bucket bucket set_queue processing].
    destruct (processing (bucket s)); [exact Hp|].
    apply tick_poisoned. exact Hp.
  - unfold fire. destruct (timers s); [exact Hp|].
    apply tick_poisoned. exact Hp.
Qed.

Lemma steps_poisoned ops s : poisoned s -> poisoned (steps Date_now ops s).
Proof.
  intros Hs. induction ops as [|o ops IH] using rev_ind; [exact Hs|].
  rewrite steps_snoc. now apply step_poisoned.
Qed.

End MoreBucket.

Section Starvation.

Context {rt : JS.Runtime}.

(** X9.  A [rateLimit] option that is neither ["none"] nor ["auto"] and
    that [Number] turns into NaN (a misspelt mode, say) installs a bucket
    whose refill rate is NaN: whatever the clock does, no caller of
    [acquire] is ever resumed. *)
Theorem unparseable_mode_starves o now api :
  OxfordAPI_constructor o now = Normal api ->
  opt_rateLimit o <> JS.VUndefined ->
  opt_rateLimit o <> JS.VStr "none" ->
  opt_rateLimit o <> JS.VStr "auto" ->
  JS.Number (opt_rateLimit o) = JS.NaN ->
  exists b,
    _bucket api = Some b /\
    refillRate b = JS.NaN /\
    forall Date_now n0 ops, resolved (steps Date_now ops (installed n0 b)) = [].
Proof.
  intros Hnew Hu Hnone Hauto Hnan. unfold OxfordAPI_constructor in Hnew.
  destruct (negb _); [discriminate|]. injection Hnew as <-. cbn [_bucket].
  assert (Hv : match opt_rateLimit o with
               | JS.VUndefined => JS.VStr "auto"
               | v => v
               end = opt_rateLimit o).
  { destruct (opt_rateLimit o); try reflexivity. contradiction. }
  rewrite Hv.
  assert (Hne : forall w, opt_rateLimit o <> JS.VStr w ->
                          value_eq_str (opt_rateLimit o) w = false).
  { intros w Hw. destruct (opt_rateLimit o) as [| | | |k| |]; try reflexivity.
    cbn. apply String.eqb_neq. congruence. }
  rewrite (Hne _ Hnone), (Hne _ Hauto), Hnan.
  eexists. split; [reflexivity|]. split; [reflexivity|].
  intros Date_now n0 ops.
  apply (steps_poisoned Date_now ops). split; reflexivity.
Qed.

End Starvation.

Section MoreAccounting.

Variable Date_now : nat -> Z.
Variables (C R : Q) (n0 : nat).
Hypothesis C_ge_1 : (1 <= C)%Q.
Hypothesis R_pos : (0 < R)%Q.
Hypothesis clock : monotone Date_now n0.

Lemma step_bounded_timers s o :
  accounted Date_now C R n0 s /\ settled s /\ bounded_timers R s ->
  accounted Date_now C R n0 (step Date_now s o) /\
  settled (step Date_now s o) /\ bounded_timers R (step Date_now s o).
Proof.
  apply (step_rule Date_now
           (fun s => accounted Date_now C R n0 s /\ settled s /\ bounded_timers R s)
           (fun s => accounted Date_now C R n0 s /\ draining s)).
  - intros s' [Hacc [_ Ht]] Hq. split; [exact Hacc|]. split.
    + right. cbn. auto.
    + intros w Hin. cbn in Hin. rewrite Ht in Hin. contradiction.
  - intros s' [Hacc Hd] _. split; [|exact Hd].
    apply _refill_accounted; try lra; assumption.
  - intros s' r rest [Hacc Hd] _ Hge. split; [|exact Hd].
    apply grant_accounted; try lra; assumption.
  - intros s' [Hacc [Hp Ht]] Hq Hge. split; [exact Hacc|]. split.
    + left. cbn. rewrite Ht. cbn. eauto.
    + intros w Hin. cbn in Hin. rewrite Ht in Hin. destruct Hin as [<- | []].
      destruct Hacc as (_ & Hr & _ & _ & t & Htok & _ & Hmono & _).
      destruct (Hmono clock) as [H0 _].
      unfold waitMs. rewrite Htok, Hr. rewrite Htok in Hge. cbn in Hge.
      assert (Hlt : (t < 1)%Q).
      { apply Qnot_le_lt. intros H. apply Qle_bool_iff in H. congruence. }
      assert (Hz : JS.Qzero R = false).
      { unfold JS.Qzero. destruct (Qeq_bool R 0) eqn:E; [|reflexivity].
        apply Qeq_bool_iff in E. lra. }
      cbn. rewrite Hz. eexists. split; [reflexivity|]. split.
      * apply Qlt_shift_div_l; lra.
      * apply Qle_shift_div_l; [lra|].
        assert (H1 : ((1 + - t) / R * R == 1 + - t)%Q) by (field; lra).
        rewrite H1. lra.
  - intros s' r [Hacc [[[Hp [Ht Hq]]|[Hp _]] Hb]] Hp'; [|congruence].
    split; [exact Hacc|]. split; [|exact Hb].
    left. cbn. repeat split; auto. now destruct (queue (bucket s')).
  - intros s' r [Hacc [[[Hp _]|[_ [Ht _]]] _]] Hp'; [congruence|].
    split; [exact Hacc|]. split; [reflexivity | exact Ht].
  - intros s' w later [Hacc [[[Hp [[w' Ht] _]]|[_ [Ht _]]] _]] Ht'; [|congruence].
    split; [exact Hacc|]. split; [exact Hp|]. cbn. congruence.
Qed.

Lemma steps_bounded_timers ops :
  bounded_timers R (steps Date_now ops (fresh Date_now (JS.Num C) (JS.Num R) n0)).
Proof.
  assert (H : accounted Date_now C R n0
                (steps Date_now ops (fresh Date_now (JS.Num C) (JS.Num R) n0)) /\
              settled (steps Date_now ops (fresh Date_now (JS.Num C) (JS.Num R) n0)) /\
              bounded_timers R
                (steps Date_now ops (fresh Date_now (JS.Num C) (JS.Num R) n0))).
  { induction ops as [|o ops IH] using rev_ind.
    - split; [apply fresh_accounted; lra|]. split; [apply fresh_settled|].
      intros w Hin. contradiction.
    - rewrite steps_snoc. now apply step_bounded_timers. }
  apply H.
Qed.

End MoreAccounting.

(** X10.  Every timer the drain arms waits a positive time of at most
    [1/R] ms, the time one token takes to refill (1000/29 ms in
    automatic mode, the configured interval in fixed-interval mode),
    provided the clock never steps back. *)
Theorem timers_bounded (Date_now : nat -> Z) (C R : Q) (n0 : nat) (ops : list Op) :
  (1 <= C)%Q -> (0 < R)%Q -> monotone Date_now n0 ->
  forall w,
    In w (timers (steps Date_now ops (fresh Date_now (JS.Num C) (JS.Num R) n0))) ->
    exists q, w = JS.Num q /\ (0 < q)%Q /\ (q <= 1 / R)%Q.
Proof.
  intros HC HR Hm. exact (steps_bounded_timers Date_now C R n0 HC HR Hm ops).
Qed.

(** ** The executor behind its gate *)

Section GatedRuns.

Context {rt : JS.Runtime}.
Variable Date_now : nat -> Z.
Variable patience : nat.

(** Running the gate changes a run in one way only: it may leave the
    call waiting at a gate that [run] lets it pass. *)
Lemma run_gated_run {A} (p : Prog A) s net :
  run_gated Date_now patience p s net = run p net \/
  (snd (run_gated Date_now patience p s net) = Waiting /\
   exists rest,
     fst (run p net) =
     fst (run_gated Date_now patience p s net) ++ Acquired :: rest).
Proof.
  revert s net.
  induction p as [a|e|k IH|url options abortAfter k IH|res body k IH|ms k IH];
    intros s net; cbn [run run_gated].
  - left. reflexivity.
  - left. reflexivity.
  - destruct (pass Date_now patience s) as [s'|].
    + destruct (IH s' net) as [Heq | (Hw & rest & Hrest)].
      * left. rewrite Heq. reflexivity.
      * right. destruct (run_gated Date_now patience k s' net) as [evs out].
        destruct (run k net) as [evs' out']. cbn [fst snd] in *.
        split; [exact Hw|]. exists rest. rewrite Hrest. reflexivity.
    + right. split; [reflexivity|].
      destruct (run k net) as [evs out]. exists evs. reflexivity.
  - destruct net as [|t net]; [left; reflexivity|].
    destruct (IH (settle abortAfter t) s net) as [Heq | (Hw & rest & Hrest)].
    + left. rewrite Heq. reflexivity.
    + right.
      destruct (run_gated Date_now patience (k (settle abortAfter t)) s net)
        as [evs out].
      destruct (run (k (settle abortAfter t)) net) as [evs' out'].
      cbn [fst snd] in *.
      split; [exact Hw|]. exists rest. rewrite Hrest. reflexivity.
  - destruct body; [apply IH | left; reflexivity | left; reflexivity].
  - destruct (IH s net) as [Heq | (Hw & rest & Hrest)].
    + left. rewrite Heq. reflexivity.
    + right. destruct (run_gated Date_now patience k s net) as [evs out].
      destruct (run k net) as [evs' out']. cbn [fst snd] in *.
      split; [exact Hw|]. exists rest. rewrite Hrest. reflexivity.
Qed.

(** A call of a client without a bucket has no gate to wait at. *)
Lemma run_gated_ungated this method path body n s net :
  _bucket this = None ->
  run_gated Date_now patience (_request this method path body n) s net =
  run (_request this method path body n) net.
Proof.
  intros Hb.
  destruct (run_gated_run (_request this method path body n) s net)
    as [Heq | (_ & rest & Hrest)]; [exact Heq|].
  destruct (run_request_shape this method path body n net) as (ds & Hev & _).
  rewrite Hev in Hrest. symmetry in Hrest.
  destruct (attempts_cut _ _ _ _ _ _ _ Hrest) as [Hne _]. contradiction.
Qed.

(** The resolver of a new caller is none of the resolvers called so
    far. *)
Lemma next_resolver_fresh s : resumed (next_resolver s) s = false.
Proof.
  unfold resumed, next_resolver.
  destruct (existsb _ _) eqn:E; [|reflexivity].
  apply existsb_exists in E as (x & Hin & Hx). apply Nat.eqb_eq in Hx.
  assert (Hle : (x <= list_max (resolved s ++ queue (bucket s)))%nat).
  { pose proof (proj1 (list_max_le (resolved s ++ queue (bucket s)) _)
                  (Nat.le_refl _)) as Hall.
    rewrite Forall_forall in Hall. apply Hall. apply in_or_app. now left. }
  lia.
Qed.

(** A bucket whose rate is NaN never calls a resolver. *)
Lemma tick_rate_NaN s :
  refillRate (bucket s) = JS.NaN ->
  refillRate (bucket (tick Date_now s)) = JS.NaN /\
  resolved (tick Date_now s) = resolved s.
Proof.
  intros Hr. destruct (queue (bucket s)) as [|r rest] eqn:Hq.
  - rewrite tick_nil by exact Hq. split; [exact Hr | reflexivity].
  - rewrite (tick_cons Date_now s r rest Hq). cbn zeta.
    rewrite (_refill_poisoned Date_now s Hr). cbn [JS.ge].
    split; [exact Hr | reflexivity].
Qed.

Lemma step_rate_NaN s o :
  refillRate (bucket s) = JS.NaN ->
  refillRate (bucket (step Date_now s o)) = JS.NaN /\
  resolved (step Date_now s o) = resolved s.
Proof.
  intros Hr. destruct o as [r|]; cbn [step].
  - unfold acquire, _process. cbn [with_bucket bucket set_queue processing].
    destruct (processing (bucket s)); [split; [exact Hr | reflexivity]|].
    apply (tick_rate_NaN
             (with_bucket (set_processing true)
                (with_bucket (fun b => set_queue (queue b ++ [r]) b) s))).
    exact Hr.
  - unfold fire. destruct (timers s); [split; [exact Hr | reflexivity]|].
    apply (tick_rate_NaN (mkLoop (bucket s) (reads s) (resolved s) l)).
    exact Hr.
Qed.

Lemma await_resume_rate_NaN firings r s :
  refillRate (bucket s) = JS.NaN ->
  resumed r s = false ->
  await_resume Date_now firings r s = None.
Proof.
  revert s. induction firings as [|f IH]; intros s Hr Hres; cbn [await_resume];
    rewrite Hres; [reflexivity|].
  destruct (timers s) eqn:Ht; [reflexivity|].
  destruct (step_rate_NaN s OpFire Hr) as [Hr' Hres']. cbn [step] in Hr', Hres'.
  apply IH; [exact Hr'|]. unfold resumed in *. rewrite Hres'. exact Hres.
Qed.

Lemma pass_rate_NaN s :
  refillRate (bucket s) = JS.NaN -> pass Date_now patience s = None.
Proof.
  intros Hr. unfold pass.
  destruct (step_rate_NaN s (OpAcquire (next_resolver s)) Hr) as [Hr' Hres'].
  cbn [step] in Hr', Hres'.
  apply await_resume_rate_NaN; [exact Hr'|].
  unfold resumed in *. rewrite Hres'. apply next_resolver_fresh.
Qed.

End GatedRuns.

Section GatedClaims.

Context {rt : JS.Runtime}.
Variable Date_now : nat -> Z.
Variable patience : nat.

(** X1.  Whatever the bucket, the clock and the transport do, the calls
    a request makes are bounded by its retries: every fetch is the same
    fetch, there is at most one fetch more than there are retries left,
    a sleep only ever follows a fetch, and with a bucket installed every
    fetch comes after a wait at the gate of its own that was served
    (without one the gate is never consulted).  Unless the request is
    left waiting at the gate, its calls are whole attempts separated by
    one sleep each. *)
Theorem attempts_bounded this method path body n s net :
  (forall ev,
     In ev (fst (run_gated Date_now patience
                   (_request this method path body n) s net)) ->
     is_fetch ev = true -> ev = fetch_event this method path body) /\
  (List.length (filter is_fetch
     (fst (run_gated Date_now patience (_request this method path body n) s net)))
   <= S (retries_left this n))%nat /\
  (List.length (filter is_sleep
     (fst (run_gated Date_now patience (_request this method path body n) s net)))
   <= retries_left this n)%nat /\
  (List.length (filter is_sleep
     (fst (run_gated Date_now patience (_request this method path body n) s net)))
   <= List.length (filter is_fetch
     (fst (run_gated Date_now patience (_request this method path body n) s net))))%nat /\
  List.length (filter is_acquire
     (fst (run_gated Date_now patience (_request this method path body n) s net))) =
    match _bucket this with
    | Some _ =>
        List.length (filter is_fetch
          (fst (run_gated Date_now patience (_request this method path body n) s net)))
    | None => 0%nat
    end /\
  (snd (run_gated Date_now patience (_request this method path body n) s net)
     <> Waiting ->
   exists delays,
     fst (run_gated Date_now patience (_request this method path body n) s net) =
       attempts this method path body delays /\
     (List.length delays <= retries_left this n)%nat).
Proof.
  destruct (run_request_shape this method path body n net)
    as (delays & Hev & Hb & _).
  destruct (run_gated_run Date_now patience
              (_request this method path body n) s net)
    as [Heq | (Hw & rest & Hrest)].
  - rewrite Heq, Hev.
    rewrite !count_attempts, count_is_sleep, !count_sleeps by reflexivity.
    split.
    { intros ev Hin Hf.
      destruct (In_attempts _ _ _ _ _ _ Hin) as [-> | [-> | [w ->]]];
        [discriminate | reflexivity | discriminate]. }
    unfold admission. destruct (_bucket this); cbn [app filter is_fetch is_sleep
      is_acquire fetch_event List.length];
      (split; [lia|]); (split; [lia|]); (split; [lia|]); (split; [lia|]);
      intros _; exists delays; (split; [reflexivity | exact Hb]).
  - rewrite Hev in Hrest. symmetry in Hrest.
    destruct (attempts_cut _ _ _ _ _ _ _ Hrest) as (Hne & k & Hk & Hf & Hs & Ha).
    rewrite Hf, Hs, Ha. split.
    { intros ev Hin Hfetch.
      assert (Hin' : In ev (attempts this method path body delays)).
      { rewrite <- Hrest. apply in_or_app. now left. }
      destruct (In_attempts _ _ _ _ _ _ Hin') as [-> | [-> | [w ->]]];
        [discriminate | reflexivity | discriminate]. }
    split; [lia|]. split; [lia|]. split; [lia|]. split.
    + destruct (_bucket this); [reflexivity | contradiction].
    + intros H. contradiction.
Qed.


(** X12.  A request of a client whose bucket has the rate NaN never gets
    past the gate: whatever the clock and the transport do and however
    many firings of the timer one waits for, it makes no fetch and does
    not settle. *)
Theorem starved_gate_never_fetches this method path body n s net :
  _bucket this <> None ->
  refillRate (bucket s) = JS.NaN ->
  run_gated Date_now patience (_request this method path body n) s net =
  ([], Waiting).
Proof.
  intros Hb Hr. rewrite _request_equation_1. unfold gate.
  destruct (_bucket this); [|contradiction].
  cbn [run_gated]. rewrite pass_rate_NaN by exact Hr. reflexivity.
Qed.

End GatedClaims.

(** ** The further properties at concrete inputs *)

Section MoreConcrete.

#[local] Existing Instance Node.runtime.

Lemma limits_two_limits : Forall (limits Demo.auto1) Cases.two_limits.
Proof.
  repeat constructor.
  - exists 20, (Demo.limited "2"). repeat split.
  - exists 25, (Demo.limited "7"). repeat split.
Qed.

(** One retry, then the rate-limit error carrying the second header. *)
Lemma retries_exhausted_witness :
  Forall (limits Demo.auto1) Cases.two_limits /\
  List.length Cases.two_limits = S (retries_left Demo.auto1 0) /\
  exists delays e after res,
    run (_request Demo.auto1 "GET" "/server" JS.VNull 0) Cases.two_limits =
      (attempts Demo.auto1 "GET" "/server" JS.VNull delays, Rejects e) /\
    List.length delays = retries_left Demo.auto1 0 /\
    last Cases.two_limits Silent = Responds after res /\
    class e = RateLimitError_class /\
    status e = Some 429 /\
    retryAfter e = Some (Response.headers_get res "Retry-After").
Proof.
  assert (H : List.length Cases.two_limits = S (retries_left Demo.auto1 0))
    by reflexivity.
  split; [exact limits_two_limits|]. split; [exact H|].
  exact (retries_exhausted Demo.auto1 "GET" "/server" JS.VNull 0 Cases.two_limits
           limits_two_limits H).
Defined.


(** A 418 answer: a plain error with the status, message and detail of
    the answer. *)
Lemma status_classification_witness :
  Response.ok Cases.teapot = false /\
  Response.status Cases.teapot <> 429 /\
  20 < deadline Demo.auto /\
  exists e,
    run (_request Demo.auto "GET" "/server" JS.VNull 0) [Responds 20 Cases.teapot] =
      (admission Demo.auto ++ [fetch_event Demo.auto "GET" "/server" JS.VNull],
       Rejects e) /\
    status e = Some 418 /\
    class e = OxfordAPIError_class /\
    details e = Some (JS.VStr "E_DOWN") /\
    message e = "maintenance".
Proof.
  assert (H1 : Response.ok Cases.teapot = false) by reflexivity.
  assert (H2 : Response.status Cases.teapot <> 429) by discriminate.
  assert (H3 : 20 < deadline Demo.auto) by reflexivity.
  split; [exact H1|]. split; [exact H2|]. split; [exact H3|].
  destruct (status_classification Demo.auto "GET" "/server" JS.VNull 0 20
              Cases.teapot [] H1 H2 H3) as (e & Hrun & Hst & Hrest).
  exists e. split; [exact Hrun|]. split; [exact Hst|].
  assert (N1 : Response.status Cases.teapot <> 403) by discriminate.
  assert (N2 : Response.status Cases.teapot <> 503) by discriminate.
  exact (Hrest N1 N2).
Defined.

(** A client built with a key, and options without one. *)
Lemma requests_carry_key_witness :
  JS.truthy (opt_serverKey Cases.keyless_options) = false /\
  OxfordAPI_constructor Cases.keyless_options 5000 =
    Abrupt (Error (JS.VStr "[oxfd.js] serverKey is required")) /\
  JS.truthy (opt_serverKey Demo.every2s_options) = true /\
  exists api,
    OxfordAPI_constructor Demo.every2s_options 5000 = Normal api /\
    forall method path body n net ev,
      In ev (fst (run (_request api method path body n) net)) ->
      is_fetch ev = true ->
      ev = Fetched ("https://api.oxfd.re/v1" ++ path)
             {| fo_method := method;
                fo_headers :=
                  [("server-key", "key");
                   ("Content-Type", "application/json");
                   ("Accept", "application/json")];
                fo_body :=
                  match body with
                  | JS.VUndefined | JS.VNull => None
                  | _ => Some (JS.JSON_stringify body)
                  end |}
             10000.
Proof.
  assert (H1 : JS.truthy (opt_serverKey Cases.keyless_options) = false)
    by reflexivity.
  assert (H2 : JS.truthy (opt_serverKey Demo.every2s_options) = true)
    by reflexivity.
  split; [exact H1|]. split.
  - exact (proj1 (requests_carry_key Cases.keyless_options 5000) H1).
  - split; [exact H2|].
    exact (proj2 (requests_carry_key Demo.every2s_options 5000) H2).
Defined.

(** A command that is dispatched and one that is refused. *)
Lemma command_dispatch_witness :
  nonempty_string Cases.kick /\
  ~ nonempty_string (JS.VStr EmptyString) /\
  (exists e, executeCommand Demo.auto (JS.VStr EmptyString) = Throw e) /\
  (forall ev,
     In ev (fst (run (executeCommand Demo.auto Cases.kick) Cases.two_limits)) ->
     is_fetch ev = true ->
     ev = Fetched (baseUrl Demo.auto ++ "/server/command")
            {| fo_method := "POST";
               fo_headers :=
                 [("server-key", JS.ToString (serverKey Demo.auto));
                  ("Content-Type", "application/json");
                  ("Accept", "application/json")];
               fo_body :=
                 Some (JS.JSON_stringify (JS.VObj [("command", Cases.kick)])) |}
            (timeout Demo.auto)).
Proof.
  assert (H1 : nonempty_string Cases.kick).
  { exists "k"%char, "ick A". reflexivity. }
  assert (H2 : ~ nonempty_string (JS.VStr EmptyString)).
  { intros (c & s & H). discriminate H. }
  split; [exact H1|]. split; [exact H2|]. split.
  - exact (proj2 (proj1 (command_dispatch Demo.auto (JS.VStr EmptyString) [])) H2).
  - exact (proj2 (command_dispatch Demo.auto Cases.kick Cases.two_limits) H1).
Defined.

(** The eleventh caller waits, and less than one token is left. *)
Lemma never_idle_with_tokens_witness :
  queue (bucket (steps Demo.steady Demo.eleven_acquires Demo.auto_loop)) <> [] /\
  JS.ge (tokens (bucket (steps Demo.steady Demo.eleven_acquires Demo.auto_loop)))
        (JS.Num 1) = false.
Proof.
  assert (H : queue (bucket (steps Demo.steady Demo.eleven_acquires Demo.auto_loop))
              <> []) by (vm_compute; discriminate).
  split; [exact H|].
  exact (never_idle_with_tokens Demo.steady (JS.Num 10) (JS.Num (29 # 1000)) 0
           Demo.eleven_acquires H).
Defined.

(** The mode ["Auto"] is not a number: nobody is ever served. *)
Lemma unparseable_mode_starves_witness :
  OxfordAPI_constructor Cases.misspelt_options 5000 = Normal Cases.misspelt /\
  opt_rateLimit Cases.misspelt_options <> JS.VUndefined /\
  opt_rateLimit Cases.misspelt_options <> JS.VStr "none" /\
  opt_rateLimit Cases.misspelt_options <> JS.VStr "auto" /\
  JS.Number (opt_rateLimit Cases.misspelt_options) = JS.NaN /\
  exists b,
    _bucket Cases.misspelt = Some b /\
    refillRate b = JS.NaN /\
    forall Date_now n0 ops, resolved (steps Date_now ops (installed n0 b)) = [].
Proof.
  assert (H1 : OxfordAPI_constructor Cases.misspelt_options 5000 =
               Normal Cases.misspelt) by reflexivity.
  assert (H2 : opt_rateLimit Cases.misspelt_options <> JS.VUndefined)
    by discriminate.
  assert (H3 : opt_rateLimit Cases.misspelt_options <> JS.VStr "none")
    by discriminate.
  assert (H4 : opt_rateLimit Cases.misspelt_options <> JS.VStr "auto")
    by discriminate.
  assert (H5 : JS.Number (opt_rateLimit Cases.misspelt_options) = JS.NaN)
    by reflexivity.
  split; [exact H1|]. split; [exact H2|]. split; [exact H3|]. split; [exact H4|].
  split; [exact H5|].
  exact (unparseable_mode_starves Cases.misspelt_options 5000 Cases.misspelt
           H1 H2 H3 H4 H5).
Defined.

Lemma ten_le_ten : (1 <= 10)%Q.
Proof. unfold Qle. cbn. lia. Qed.

(** The timer of the eleventh caller waits at most 1000/29 ms. *)
Lemma timers_bounded_witness :
  (1 <= 10)%Q /\ (0 < 29 # 1000)%Q /\ monotone Demo.steady 0 /\
  forall w,
    In w (timers (steps Demo.steady Demo.eleven_acquires Demo.auto_loop)) ->
    exists q, w = JS.Num q /\ (0 < q)%Q /\ (q <= 1 / (29 # 1000))%Q.
Proof.
  assert (H2 : (0 < 29 # 1000)%Q) by reflexivity.
  split; [exact ten_le_ten|]. split; [exact H2|]. split; [exact (steady_monotone 0)|].
  exact (timers_bounded Demo.steady 10 (29 # 1000) 0 Demo.eleven_acquires
           ten_le_ten H2 (steady_monotone 0)).
Defined.

(** The client whose mode is misspelt: its request is still at the gate
    after a thousand firings of the timer. *)
Lemma starved_gate_never_fetches_witness :
  _bucket Cases.misspelt <> None /\
  refillRate (bucket Cases.starved_loop) = JS.NaN /\
  run_gated Demo.steady 1000 (_request Cases.misspelt "GET" "/server" JS.VUndefined 0)
    Cases.starved_loop [Responds 20 Demo.pair_answer] = ([], Waiting).
Proof.
  assert (H1 : _bucket Cases.misspelt <> None) by (vm_compute; discriminate).
  assert (H2 : refillRate (bucket Cases.starved_loop) = JS.NaN)
    by (vm_compute; reflexivity).
  split; [exact H1|]. split; [exact H2|].
  exact (starved_gate_never_fetches Demo.steady 1000 Cases.misspelt "GET" "/server"
           JS.VUndefined 0 Cases.starved_loop [Responds 20 Demo.pair_answer] H1 H2).
Defined.

End MoreConcrete.
